(** * rsnapshot_backup: a shallow embedding of the backup orchestrator

    This development follows [rsnapshot_backup/rsnapshot_backup.py].  The
    script is one sequential loop over the configured backup items; every
    item is a YAML mapping, used by the script as a mutable dictionary.

    What is modelled, and how:
    - an item is a [gmap string value]; a [value] is one of the YAML
      scalars the script meets (null, boolean, integer, string) or a list
      of strings (the [exclude] field).  Floats, nested mappings and
      non-ASCII text are outside the model; text behaves as in Python 3;
    - every external command ([run_cmd], [run_cmd_pipe]) is answered by an
      oracle, indexed by the position of the item in the configuration and
      by the call site; the shell text of the commands is not modelled, but
      every exception that building it could raise is;
    - the run has a state (error counter, rotated paths, the two generated
      files, the commands run so far) that is threaded through a small
      monad with three outcomes: fall through, [continue], raise;
    - writing the two generated files is taken to succeed. *)

From stdpp Require Import gmap strings list pretty sorting.
From Stdlib Require Import Ascii.

Open Scope string_scope.
Open Scope nat_scope.

(** ** Python values *)

Inductive value : Type :=
| VNone
| VBool (b : bool)
| VInt (n : Z)
| VStr (s : string)
| VList (l : list string).

#[global] Instance value_eq_dec : EqDecision value.
Proof. solve_decision. Defined.

Abbreviation item := (gmap string value).

Definition TAB : string := String (ascii_of_nat 9) "".
Definition NL : string := String (ascii_of_nat 10) "".

Module Py.

(** Truth value of an object, as used by [if x:] and [not x]. *)
Definition truthy (v : value) : bool :=
  match v with
  | VNone => false
  | VBool b => b
  | VInt n => negb (n =? 0)%Z
  | VStr s => negb (String.eqb s "")
  | VList l => match l with [] => false | _ => true end
  end.

(** [==]: booleans are the integers 0 and 1. *)
Definition key (v : value) : value :=
  match v with
  | VBool b => VInt (if b then 1 else 0)
  | _ => v
  end.

Definition eq (a b : value) : bool := bool_decide (key a = key b).

(** [x in l] for a list [l]: some element is [==] to [x]. *)
Definition mem (x : value) (l : list value) : bool := existsb (eq x) l.

(** ** Strings *)

Fixpoint has_char (c : ascii) (s : string) : bool :=
  match s with
  | "" => false
  | String a s' => if Ascii.eqb a c then true else has_char c s'
  end.

(** [s.split(c)] for a one-character separator. *)
Fixpoint split (c : ascii) (s : string) : list string :=
  match s with
  | "" => [""]
  | String a s' =>
      if Ascii.eqb a c then "" :: split c s'
      else match split c s' with
           | h :: t => String a h :: t
           | [] => [String a ""]
           end
  end.

(** [p in s] for two strings: [p] occurs in [s]. *)
Fixpoint infix (p s : string) : bool :=
  String.prefix p s ||
  match s with
  | "" => false
  | String _ s' => infix p s'
  end.

(** Whitespace of [str.strip()] on ASCII text. *)
Definition is_space (a : ascii) : bool :=
  let n := nat_of_ascii a in
  ((9 <=? n) && (n <=? 13)) || ((28 <=? n) && (n <=? 32)).

Fixpoint lstrip (s : string) : string :=
  match s with
  | "" => ""
  | String a s' => if is_space a then lstrip s' else s
  end.

Fixpoint rstrip (s : string) : string :=
  match s with
  | "" => ""
  | String a s' =>
      match rstrip s' with
      | "" => if is_space a then "" else String a ""
      | r => String a r
      end
  end.

Fixpoint join (sep : string) (l : list string) : string :=
  match l with
  | [] => ""
  | [x] => x
  | x :: l' => x +:+ sep +:+ join sep l'
  end.

(** ** [str] and [repr] *)

Definition hex_digit (n : nat) : ascii :=
  ascii_of_nat (if n <? 10 then 48 + n else 87 + n).

Definition DQUOTE : ascii := ascii_of_nat 34.

Definition repr_char (q : ascii) (a : ascii) : string :=
  let n := nat_of_ascii a in
  if Ascii.eqb a "\" then "\\"
  else if Ascii.eqb a q then String "\" (String a "")
  else if n =? 9 then "\t"
  else if n =? 10 then "\n"
  else if n =? 13 then "\r"
  else if (n <? 32) || (126 <? n) then
    String "\" (String "x" (String (hex_digit (n / 16)) (String (hex_digit (n mod 16)) "")))
  else String a "".

Fixpoint repr_body (q : ascii) (s : string) : string :=
  match s with
  | "" => ""
  | String a s' => repr_char q a +:+ repr_body q s'
  end.

Definition repr_str (s : string) : string :=
  let q : ascii :=
    if has_char "'" s && negb (has_char DQUOTE s) then DQUOTE else "'"%char in
  String q (repr_body q s) +:+ String q "".

(** [str(v)], which is also what [format] puts in place of a field. *)
Definition str (v : value) : string :=
  match v with
  | VNone => "None"
  | VBool true => "True"
  | VBool false => "False"
  | VInt n => pretty n
  | VStr s => s
  | VList l => "[" +:+ join ", " (repr_str <$> l) +:+ "]"
  end.

End Py.

(** ** Item defaults (the block under [# Item defaults]) *)

(** [if k not in item: item[k] = v] *)
Definition setdefault (k : string) (v : value) (it : item) : item :=
  match it !! k with
  | Some _ => it
  | None => <[k := v]> it
  end.

Definition apply_defaults (debug : bool) (it : item) : item :=
  let it := setdefault "retain_daily" (VInt 7) it in
  let it := setdefault "retain_weekly" (VInt 4) it in
  let it := setdefault "retain_monthly" (VInt 3) it in
  let it := setdefault "connect_user" (VStr "root") it in
  let it := setdefault "validate_hostname" (VBool true) it in
  let it := setdefault "mysql_noevents" (VBool false) it in
  let it := setdefault "postgresql_noclean" (VBool false) it in
  let it := setdefault "native_txt_check" (VBool false) it in
  let it := setdefault "native_10h_limit" (VBool false) it in
  let it :=
    if debug then
      <["rsync_verbosity_args" := VStr "--human-readable --progress"]>
        (<["verbosity_level" := VInt 5]> it)
    else
      <["rsync_verbosity_args" := VStr ""]> (<["verbosity_level" := VInt 2]> it) in
  let it := setdefault "rsync_args" (VStr "") it in
  let it := setdefault "mysql_dump_dir" (VStr "/var/backups/mysql") it in
  let it := setdefault "postgresql_dump_dir" (VStr "/var/backups/postgresql") it in
  let it := setdefault "mongodb_dump_dir" (VStr "/var/backups/mongodb") it in
  let it := setdefault "mysqldump_args" (VStr "") it in
  let it := setdefault "pg_dump_args" (VStr "") it in
  let it := setdefault "mongo_args" (VStr "") it in
  let it := setdefault "xtrabackup_throttle" (VStr "20") it in
  let it := setdefault "xtrabackup_parallel" (VStr "2") it in
  let it := setdefault "xtrabackup_compress_threads" (VStr "2") it in
  setdefault "xtrabackup_args" (VStr "") it.

(** The keys that are set only when the item does not have them. *)
Definition defaulted_keys : list string :=
  [ "retain_daily"; "retain_weekly"; "retain_monthly"; "connect_user";
    "validate_hostname"; "mysql_noevents"; "postgresql_noclean";
    "native_txt_check"; "native_10h_limit"; "rsync_args"; "mysql_dump_dir";
    "postgresql_dump_dir"; "mongodb_dump_dir"; "mysqldump_args"; "pg_dump_args";
    "mongo_args"; "xtrabackup_throttle"; "xtrabackup_parallel";
    "xtrabackup_compress_threads"; "xtrabackup_args" ].

(** The keys that are assigned on every pass, from the [--debug] flag. *)
Definition verbosity_keys : list string :=
  [ "verbosity_level"; "rsync_verbosity_args" ].

(** ** The generated configuration files *)

(** [format] of [item[k]]; [None] stands for the [KeyError]. *)
Definition field (it : item) (k : string) : option string := Py.str <$> it !! k.

(** A template is given line by line; every line ends with a newline. *)
Definition text_of (lines : list string) : string :=
  foldr (λ l acc, l +:+ NL +:+ acc) "" lines.

Definition retain_hourly_comment (it : item) : string :=
  match it !! "retain_hourly" with Some _ => "" | None => "#" end.

Definition retain_hourly (it : item) : string :=
  match it !! "retain_hourly" with Some v => Py.str v | None => "NONE" end.

Definition ssh_args : string := "-o BatchMode=yes -o StrictHostKeyChecking=no".
Definition RSNAPSHOT_PASSWD : string := "/opt/sysadmws/rsnapshot_backup/rsnapshot.passwd".

(** The file written before a rotation. *)
Definition conf_rotation (it : item) : option string :=
  snapshot_root ← field it "path";
  retain_daily ← field it "retain_daily";
  retain_weekly ← field it "retain_weekly";
  retain_monthly ← field it "retain_monthly";
  verbosity_level ← field it "verbosity_level";
  Some (text_of
    [ "config_version" +:+ TAB +:+ "1.2";
      "snapshot_root" +:+ TAB +:+ snapshot_root;
      "cmd_cp" +:+ TAB +:+ TAB +:+ "/bin/cp";
      "cmd_rm" +:+ TAB +:+ TAB +:+ "/bin/rm";
      "cmd_rsync" +:+ TAB +:+ "/usr/bin/rsync";
      "cmd_ssh" +:+ TAB +:+ TAB +:+ "/usr/bin/ssh";
      "cmd_logger" +:+ TAB +:+ "/usr/bin/logger";
      retain_hourly_comment it +:+ "retain" +:+ TAB +:+ TAB +:+ "hourly" +:+ TAB +:+ retain_hourly it;
      "retain" +:+ TAB +:+ TAB +:+ "daily" +:+ TAB +:+ retain_daily;
      "retain" +:+ TAB +:+ TAB +:+ "weekly" +:+ TAB +:+ retain_weekly;
      "retain" +:+ TAB +:+ TAB +:+ "monthly" +:+ TAB +:+ retain_monthly;
      "verbose" +:+ TAB +:+ TAB +:+ verbosity_level;
      "loglevel" +:+ TAB +:+ "3";
      "logfile" +:+ TAB +:+ TAB +:+ "/opt/sysadmws/rsnapshot_backup/rsnapshot.log";
      "lockfile" +:+ TAB +:+ "/opt/sysadmws/rsnapshot_backup/rsnapshot.pid";
      "sync_first" +:+ TAB +:+ "1";
      "# any backup definition enough for rotation";
      "backup" +:+ TAB +:+ TAB +:+ "/etc/" +:+ TAB +:+ TAB +:+ "rsnapshot/" ]).

(** The file written before the sync of an item reached over SSH. *)
Definition conf_sync_ssh (conf_backup_lines : string) (it : item) : option string :=
  snapshot_root ← field it "path";
  retain_daily ← field it "retain_daily";
  retain_weekly ← field it "retain_weekly";
  retain_monthly ← field it "retain_monthly";
  verbosity_level ← field it "verbosity_level";
  port ← field it "connect_port";
  rsync_verbosity_args ← field it "rsync_verbosity_args";
  rsync_args ← field it "rsync_args";
  Some (text_of
    [ "config_version" +:+ TAB +:+ "1.2";
      "snapshot_root" +:+ TAB +:+ snapshot_root;
      "cmd_cp" +:+ TAB +:+ TAB +:+ "/bin/cp";
      "cmd_rm" +:+ TAB +:+ TAB +:+ "/bin/rm";
      "cmd_rsync" +:+ TAB +:+ "/usr/bin/rsync";
      "cmd_ssh" +:+ TAB +:+ TAB +:+ "/usr/bin/ssh";
      "cmd_logger" +:+ TAB +:+ "/usr/bin/logger";
      retain_hourly_comment it +:+ "retain" +:+ TAB +:+ TAB +:+ "hourly" +:+ TAB +:+ retain_hourly it;
      "retain" +:+ TAB +:+ TAB +:+ "daily" +:+ TAB +:+ retain_daily;
      "retain" +:+ TAB +:+ TAB +:+ "weekly" +:+ TAB +:+ retain_weekly;
      "retain" +:+ TAB +:+ TAB +:+ "monthly" +:+ TAB +:+ retain_monthly;
      "verbose" +:+ TAB +:+ TAB +:+ verbosity_level;
      "loglevel" +:+ TAB +:+ "3";
      "logfile" +:+ TAB +:+ TAB +:+ "/opt/sysadmws/rsnapshot_backup/rsnapshot.log";
      "lockfile" +:+ TAB +:+ "/opt/sysadmws/rsnapshot_backup/rsnapshot.pid";
      "ssh_args" +:+ TAB +:+ ssh_args +:+ " -p " +:+ port;
      "rsync_long_args" +:+ TAB +:+ "-az --delete --delete-excluded --numeric-ids --relative "
        +:+ rsync_verbosity_args +:+ " " +:+ rsync_args;
      "sync_first" +:+ TAB +:+ "1";
      conf_backup_lines ]).

(** The file written before the sync of an item reached by native rsync. *)
Definition conf_sync_native (it : item) : option string :=
  snapshot_root ← field it "path";
  retain_daily ← field it "retain_daily";
  retain_weekly ← field it "retain_weekly";
  retain_monthly ← field it "retain_monthly";
  verbosity_level ← field it "verbosity_level";
  rsync_verbosity_args ← field it "rsync_verbosity_args";
  rsync_args ← field it "rsync_args";
  user ← field it "connect_user";
  host ← field it "connect_host";
  port ← field it "connect_port";
  source ← field it "source";
  Some (text_of
    [ "config_version" +:+ TAB +:+ "1.2";
      "snapshot_root" +:+ TAB +:+ snapshot_root;
      "cmd_cp" +:+ TAB +:+ TAB +:+ "/bin/cp";
      "cmd_rm" +:+ TAB +:+ TAB +:+ "/bin/rm";
      "cmd_rsync" +:+ TAB +:+ "/usr/bin/rsync";
      "cmd_ssh" +:+ TAB +:+ TAB +:+ "/usr/bin/ssh";
      "cmd_logger" +:+ TAB +:+ "/usr/bin/logger";
      retain_hourly_comment it +:+ "retain" +:+ TAB +:+ TAB +:+ "hourly" +:+ TAB +:+ retain_hourly it;
      "retain" +:+ TAB +:+ TAB +:+ "daily" +:+ TAB +:+ retain_daily;
      "retain" +:+ TAB +:+ TAB +:+ "weekly" +:+ TAB +:+ retain_weekly;
      "retain" +:+ TAB +:+ TAB +:+ "monthly" +:+ TAB +:+ retain_monthly;
      "verbose" +:+ TAB +:+ TAB +:+ verbosity_level;
      "loglevel" +:+ TAB +:+ "3";
      "logfile" +:+ TAB +:+ TAB +:+ "/opt/sysadmws/rsnapshot_backup/rsnapshot.log";
      "lockfile" +:+ TAB +:+ "/opt/sysadmws/rsnapshot_backup/rsnapshot.pid";
      "rsync_long_args" +:+ TAB
        +:+ "-az --delete --delete-excluded --no-owner --no-group --numeric-ids --relative --password-file="
        +:+ RSNAPSHOT_PASSWD +:+ " " +:+ rsync_verbosity_args +:+ " " +:+ rsync_args;
      "sync_first" +:+ TAB +:+ "1";
      "backup" +:+ TAB +:+ TAB +:+ "rsync://" +:+ user +:+ "@" +:+ host +:+ ":" +:+ port
        +:+ source +:+ "/" +:+ TAB +:+ TAB +:+ "rsnapshot/" ]).

(** ** Backup lines of an item reached over SSH
    (the block under [# Populate backup lines in config]) *)

Definition conf_backup_line_template
    (user host source tab_before_rsync_long_args rsync_long_args : string) : string :=
  "backup" +:+ TAB +:+ TAB +:+ user +:+ "@" +:+ host +:+ ":" +:+ source +:+ "/" +:+ TAB
    +:+ "rsnapshot/" +:+ tab_before_rsync_long_args +:+ rsync_long_args +:+ NL.

Definition data_expand : list (string * list string) :=
  [ ("UBUNTU", ["/etc"; "/home"; "/root"; "/var/spool/cron"; "/var/lib/dpkg"; "/usr/local"; "/opt/sysadmws"]);
    ("DEBIAN", ["/etc"; "/home"; "/root"; "/var/spool/cron"; "/var/lib/dpkg"; "/usr/local"; "/opt/sysadmws"]);
    ("CENTOS", ["/etc"; "/home"; "/root"; "/var/spool/cron"; "/var/lib/rpm"; "/usr/local"; "/opt/sysadmws"]) ].

(** [data_expand[k]] for a key that may be any hashable value: only a
    string can be one of the keys. *)
Definition data_expand_get (k : value) : option (list string) :=
  match k with
  | VStr s => snd <$> find (λ kv, String.eqb (fst kv) s) data_expand
  | _ => None
  end.

(** ["exclude" in item and source in item["exclude"]]; [None] stands for
    the [TypeError] of [in] on a value that is no container. *)
Definition excluded (it : item) (source : string) : option bool :=
  match it !! "exclude" with
  | None => Some false
  | Some (VList l) => Some (bool_decide (source ∈ l))
  | Some (VStr e) => Some (Py.infix source e)
  | Some _ => None
  end.

(** One line of the [for source in data_expand[...]] loop. *)
Definition expanded_line (user host source : string) : string :=
  conf_backup_line_template user host source
    (if String.eqb source "/opt/sysadmws" then TAB else "")
    (if String.eqb source "/opt/sysadmws"
     then "+rsync_long_args=--exclude=/opt/sysadmws/bulk_log --exclude=log" else "").

Fixpoint expand_lines (it : item) (sources : list string) : option string :=
  match sources with
  | [] => Some ""
  | source :: rest =>
      ex ← excluded it source;
      line ←
        (if (ex : bool) then Some ""
         else
           user ← field it "connect_user";
           host ← field it "connect_host";
           Some (expanded_line user host source));
      tl ← expand_lines it rest;
      Some (line +:+ tl)
  end.

Definition is_xtrabackup (it : item) : bool :=
  match it !! "mysql_dump_type" with
  | Some v => Py.eq v (VStr "xtrabackup")
  | None => false
  end.

Definition conf_backup_lines (it : item) : option string :=
  ty ← it !! "type";
  rsync ←
    (if Py.eq ty (VStr "RSYNC_SSH") then
       src ← it !! "source";
       match src with
       | VList _ => None
       | _ =>
           match data_expand_get src with
           | Some sources => expand_lines it sources
           | None =>
               user ← field it "connect_user";
               host ← field it "connect_host";
               Some (conf_backup_line_template user host (Py.str src) "" "")
           end
       end
     else Some "");
  mysql ←
    (if Py.eq ty (VStr "MYSQL_SSH") then
       user ← field it "connect_user";
       host ← field it "connect_host";
       source ← field it "mysql_dump_dir";
       Some (conf_backup_line_template user host source
               (if is_xtrabackup it then TAB else "")
               (if is_xtrabackup it then "+rsync_long_args=--no-compress" else ""))
     else Some "");
  postgresql ←
    (if Py.eq ty (VStr "POSTGRESQL_SSH") then
       user ← field it "connect_user";
       host ← field it "connect_host";
       source ← field it "postgresql_dump_dir";
       Some (conf_backup_line_template user host source "" "")
     else Some "");
  mongodb ←
    (if Py.eq ty (VStr "MONGODB_SSH") then
       user ← field it "connect_user";
       host ← field it "connect_host";
       source ← field it "mongodb_dump_dir";
       Some (conf_backup_line_template user host source "" "")
     else Some "");
  Some (rsync +:+ mysql +:+ postgresql +:+ mongodb).

(** ** The run: arguments, outside world, state *)

Inductive mode : Type := Sync | RotateHourly | RotateDaily | RotateWeekly | RotateMonthly.

Record args : Type := {
  debug : bool;
  item_number : option string;
  host : option string;
  run_mode : mode
}.

Definition is_rotation (m : mode) : bool :=
  match m with Sync => false | _ => true end.

Definition rsnapshot_command (m : mode) : string :=
  match m with
  | Sync => "sync"
  | RotateHourly => "hourly"
  | RotateDaily => "daily"
  | RotateWeekly => "weekly"
  | RotateMonthly => "monthly"
  end.

(** The places where the script starts an external command. *)
Inductive site : Type :=
| BeforeBackupCheck
| SshCheck
| LoopbackAuthorize
| SshRecheck
| HostnameQuery
| ExecBeforeRsync
| RemoteDump
| RemoveParts
| RsnapshotRotate
| RsnapshotSync
| ExecAfterRsync
| NativeTxtCheck.

#[global] Instance site_eq_dec : EqDecision site.
Proof. solve_decision. Defined.

(** What a command does: it ends with a return code and some output, or
    running it raises. *)
Inductive result : Type :=
| Exit (retcode : Z) (stdout : string)
| Fault.

Record world : Type := {
  SELF_HOSTNAME : string;
  answer : nat → site → result
}.

(** The credentials file: its text, and whether [chmod 0600] was applied. *)
Record pwfile : Type := { pw_text : string; pw_0600 : bool }.

Record run_state : Type := {
  errors : nat;
  paths_processed : list value;
  cur : item;
  conf_file : option string;
  passwd_file : option pwfile;
  trace : list (nat * site)
}.

Definition initial : run_state :=
  {| errors := 0; paths_processed := []; cur := ∅;
     conf_file := None; passwd_file := None; trace := [] |}.

Definition set_errors (n : nat) (st : run_state) : run_state :=
  {| errors := n; paths_processed := paths_processed st; cur := cur st;
     conf_file := conf_file st; passwd_file := passwd_file st; trace := trace st |}.
Definition set_paths (l : list value) (st : run_state) : run_state :=
  {| errors := errors st; paths_processed := l; cur := cur st;
     conf_file := conf_file st; passwd_file := passwd_file st; trace := trace st |}.
Definition set_cur (it : item) (st : run_state) : run_state :=
  {| errors := errors st; paths_processed := paths_processed st; cur := it;
     conf_file := conf_file st; passwd_file := passwd_file st; trace := trace st |}.
Definition set_conf (c : option string) (st : run_state) : run_state :=
  {| errors := errors st; paths_processed := paths_processed st; cur := cur st;
     conf_file := c; passwd_file := passwd_file st; trace := trace st |}.
Definition set_passwd (p : option pwfile) (st : run_state) : run_state :=
  {| errors := errors st; paths_processed := paths_processed st; cur := cur st;
     conf_file := conf_file st; passwd_file := p; trace := trace st |}.
Definition set_trace (t : list (nat * site)) (st : run_state) : run_state :=
  {| errors := errors st; paths_processed := paths_processed st; cur := cur st;
     conf_file := conf_file st; passwd_file := passwd_file st; trace := t |}.

(** ** The monad of one pass of the loop body *)

Inductive outcome (A : Type) : Type :=
| Next (a : A)   (* control reaches the next statement *)
| Continue       (* [continue]: the rest of the body is skipped *)
| Raised.        (* an exception travels to the [except] of the item *)
Arguments Next {A} a.
Arguments Continue {A}.
Arguments Raised {A}.

Definition M (A : Type) : Type := run_state → outcome A * run_state.

Definition ret {A} (a : A) : M A := λ st, (Next a, st).

Definition bind {A B} (m : M A) (k : A → M B) : M B :=
  λ st, match m st with
        | (Next a, st') => k a st'
        | (Continue, st') => (Continue, st')
        | (Raised, st') => (Raised, st')
        end.

Notation "'let*' x ':=' m 'in' k" := (bind m (λ x, k))
  (at level 10, x pattern, m at level 100, k at level 200).
Notation "m ';;' k" := (bind m (λ _, k))
  (at level 100, k at level 200, right associativity).

Definition continue_ {A} : M A := λ st, (Continue, st).
Definition raise_ {A} : M A := λ st, (Raised, st).

(** [item[k]], with its [KeyError]. *)
Definition getitem (k : string) : M value :=
  λ st, match cur st !! k with
        | Some v => (Next v, st)
        | None => (Raised, st)
        end.

(** [k in item] *)
Definition has_key (k : string) : M bool :=
  λ st, (Next (bool_decide (is_Some (cur st !! k))), st).

(** [item[k] = v] *)
Definition setitem (k : string) (v : value) : M unit :=
  λ st, (Next tt, set_cur (<[k := v]> (cur st)) st).

(** [errors += 1] *)
Definition count_error : M unit :=
  λ st, (Next tt, set_errors (S (errors st)) st).

Section Body.

Variable a : args.
Variable w : world.
(** The position of the item in [config["items"]]. *)
Variable idx : nat.

(** [run_cmd]: the command is started (and noted in the trace); it
    yields its return code, or raises. *)
Definition run_cmd (s : site) : M Z :=
  λ st, let st' := set_trace (trace st ++ [(idx, s)]) st in
        match answer w idx s with
        | Exit retcode _ => (Next retcode, st')
        | Fault => (Raised, st')
        end.

(** [run_cmd_pipe]: the same, and the standard output is captured. *)
Definition run_cmd_pipe (s : site) : M (Z * string) :=
  λ st, let st' := set_trace (trace st ++ [(idx, s)]) st in
        match answer w idx s with
        | Exit retcode stdout => (Next (retcode, stdout), st')
        | Fault => (Raised, st')
        end.

(** A command whose failure is an error that ends the pass:
    [errors += 1; continue]. *)
Definition must_succeed (s : site) : M unit :=
  let* retcode := run_cmd s in
  if (retcode =? 0)%Z then ret tt else (count_error ;; continue_).

(** A command whose failure is an error after which the pass goes on. *)
Definition may_fail (s : site) : M unit :=
  let* retcode := run_cmd s in
  if (retcode =? 0)%Z then ret tt else count_error.

(** [with open(RSNAPSHOT_CONF, "w") as f: f.write(template.format(...))]:
    the file is opened, hence emptied, before the text is built. *)
Definition write_conf (render : item → option string) : M unit :=
  λ st, match render (cur st) with
        | Some text => (Next tt, set_conf (Some text) st)
        | None => (Raised, set_conf (Some "") st)
        end.

(** [# Check before_backup_check and skip item if failed] *)
Definition before_backup_check : M unit :=
  let* present := has_key "before_backup_check" in
  if present then must_succeed BeforeBackupCheck else ret tt.

(** [# Rotations] *)
Definition rotate : M unit :=
  let* path := getitem "path" in
  λ st,
    if Py.mem path (paths_processed st) then (Continue, st)
    else
      (write_conf conf_rotation ;; may_fail RsnapshotRotate)
        (set_paths (paths_processed st ++ [path]) st).

(** The split of [connect] into [connect_host] and [connect_port]. *)
Definition derive_connect (default_port : Z) : M unit :=
  let* connect := getitem "connect" in
  match connect with
  | VStr s =>
      if Py.has_char ":" s then
        match Py.split ":" s with
        | h :: p :: _ => setitem "connect_host" (VStr h) ;; setitem "connect_port" (VStr p)
        | _ => raise_
        end
      else setitem "connect_host" connect ;; setitem "connect_port" (VInt default_port)
  | VList l =>
      if bool_decide (":" ∈ l) then raise_
      else setitem "connect_host" connect ;; setitem "connect_port" (VInt default_port)
  | _ => raise_
  end.

(** [# Check SSH] *)
Definition check_ssh : M unit :=
  let* retcode := run_cmd SshCheck in
  if (retcode =? 0)%Z then ret tt
  else
    let* h := getitem "host" in
    if Py.eq h (VStr (SELF_HOSTNAME w)) then
      must_succeed LoopbackAuthorize ;; must_succeed SshRecheck
    else count_error ;; continue_.

(** [# Validate hostname]: [item["validate_hostname"]] is read for the
    log line only; the [try] that follows is not under that [if]. *)
Definition validate_hostname : M unit :=
  let* _ := getitem "validate_hostname" in
  let* answered := run_cmd_pipe HostnameQuery in
  match answered with
  | (retcode, stdout) =>
      if (retcode =? 0)%Z then
        let hostname_received := Py.rstrip (Py.lstrip stdout) in
        let* h := getitem "host" in
        if Py.eq (VStr hostname_received) h then ret tt
        else count_error ;; continue_
      else count_error ;; continue_
  end.

(** [# Exec exec_before_rsync] and [# Exec exec_after_rsync] *)
Definition hook (k : string) (s : site) : M unit :=
  let* present := has_key k in
  if present then may_fail s else ret tt.

Definition is_db_type (ty : value) : bool :=
  Py.mem ty [VStr "MYSQL_SSH"; VStr "POSTGRESQL_SSH"; VStr "MONGODB_SSH"].

(** [for db_to_exclude in item["exclude"]]: the value must be iterable. *)
Definition grep_db_filter : M unit :=
  let* present := has_key "exclude" in
  if present then
    let* ex := getitem "exclude" in
    match ex with
    | VStr _ | VList _ => ret tt
    | _ => raise_
    end
  else ret tt.

(** [# DB dumps before rsync]: the remote script is built from the item
    (which needs [source]), run, and partial downloads are removed
    (which needs [path]). *)
Definition db_dump : M unit :=
  let* ty := getitem "type" in
  if is_db_type ty then
    grep_db_filter ;;
    getitem "source" ;;
    must_succeed RemoteDump ;;
    getitem "path" ;;
    may_fail RemoveParts
  else ret tt.

(** [# Populate backup lines in config] and [# Save config] *)
Definition save_conf_ssh : M unit :=
  λ st, match conf_backup_lines (cur st) with
        | Some lines => write_conf (conf_sync_ssh lines) st
        | None => (Raised, st)
        end.

Definition sync_ssh : M unit :=
  derive_connect 22 ;;
  check_ssh ;;
  validate_hostname ;;
  hook "exec_before_rsync" ExecBeforeRsync ;;
  db_dump ;;
  save_conf_ssh ;;
  may_fail RsnapshotSync ;;
  hook "exec_after_rsync" ExecAfterRsync.

(** [# Save connect password to file] *)
Definition write_passwd : M unit :=
  λ st,
    let kept := match passwd_file st with Some f => pw_0600 f | None => false end in
    match cur st !! "connect_password" with
    | Some (VStr text) =>
        (Next tt, set_passwd (Some {| pw_text := text; pw_0600 := true |}) st)
    | _ =>
        (* the file is open, hence empty, when [write] or the lookup raises *)
        (Raised, set_passwd (Some {| pw_text := ""; pw_0600 := kept |}) st)
    end.

(** [# Delete password file] *)
Definition remove_passwd : M unit :=
  λ st, (Next tt, set_passwd None st).

(** [# Check remote .backup existance] *)
Definition native_txt_check : M unit :=
  let* wanted := getitem "native_txt_check" in
  if Py.truthy wanted then
    getitem "source" ;; must_succeed NativeTxtCheck
  else ret tt.

Definition sync_native : M unit :=
  derive_connect 873 ;;
  (let* present := has_key "connect_password" in
   if present then ret tt else (count_error ;; continue_)) ;;
  write_passwd ;;
  native_txt_check ;;
  write_conf conf_sync_native ;;
  may_fail RsnapshotSync ;;
  remove_passwd.

Definition is_ssh_type (ty : value) : bool :=
  Py.mem ty [VStr "RSYNC_SSH"; VStr "MYSQL_SSH"; VStr "POSTGRESQL_SSH"; VStr "MONGODB_SSH"].

Definition is_native_type (ty : value) : bool :=
  Py.mem ty [VStr "RSYNC_NATIVE"].

(** [# Sync] *)
Definition sync : M unit :=
  let* ty := getitem "type" in
  if is_ssh_type ty then sync_ssh
  else if is_native_type ty then sync_native
  else count_error.

(** [# Item defaults], on the dictionary of the item. *)
Definition default_item : M unit :=
  λ st, (Next tt, set_cur (apply_defaults (debug a) (cur st)) st).

(** The body of the [try] of one item. *)
Definition item_body : M unit :=
  getitem "number" ;;
  default_item ;;
  before_backup_check ;;
  (if is_rotation (run_mode a) then rotate else ret tt) ;;
  (if is_rotation (run_mode a) then ret tt else sync).

(** The filters in front of the [try]: [None] stands for the [KeyError]
    that leaves the loop. *)
Definition selected (it : item) : option bool :=
  enabled ← it !! "enabled";
  if negb (Py.truthy enabled) then Some false
  else
    by_number ←
      match item_number a with
      | Some n => number ← it !! "number"; Some (String.eqb (Py.str number) n)
      | None => Some true
      end;
    if negb by_number then Some false
    else
      match host a with
      | Some h => item_host ← it !! "host"; Some (Py.eq item_host (VStr h))
      | None => Some true
      end.

(** The [except Exception] of the item: an exception of the body is
    counted as one error, and the loop goes to the next item, as it does
    after a [continue] and at the end of the body. *)
Definition caught (r : outcome unit * run_state) : outcome unit * run_state :=
  match r with
  | (Raised, st') => (Next tt, set_errors (S (errors st')) st')
  | (_, st') => (Next tt, st')
  end.

(** One pass of [for item in config["items"]]: the item is skipped by the
    filters, or its body runs inside the [try]. *)
Definition item_pass (it : item) (st : run_state) : outcome unit * run_state :=
  match selected it with
  | None => (Raised, st)
  | Some false => (Next tt, st)
  | Some true => caught (item_body (set_cur it st))
  end.

End Body.

(** [for item in config["items"]] *)
Fixpoint loop (a : args) (w : world) (idx : nat) (items : list item) (st : run_state)
  : outcome unit * run_state :=
  match items with
  | [] => (Next tt, st)
  | it :: rest =>
      match item_pass a w idx it st with
      | (Next _, st') => loop a w (S idx) rest st'
      | (o, st') => (o, st')
      end
  end.

(** ** The whole run (the block under [# Main]) *)

(** The loaded configuration: a mapping that may lack either key. *)
Record config : Type := {
  cfg_enabled : option value;
  cfg_items : option (list item)
}.

(** The lock file of the [lockfile] module: free, held by this process,
    or held by another one. *)
Inductive lock_holder : Type := LockFree | LockOurs | LockOther.

(** [lock.acquire(timeout=0)]: [None] stands for [AlreadyLocked]. *)
Definition acquire (l : lock_holder) : option lock_holder :=
  match l with
  | LockFree => Some LockOurs
  | _ => None
  end.

(** [lock.release()]: [None] stands for [NotLocked] or [NotMyLock]. *)
Definition release (l : lock_holder) : option lock_holder :=
  match l with
  | LockOurs => Some LockFree
  | _ => None
  end.

Record finished : Type := {
  exit_code : Z;
  final : run_state;
  lock_after : lock_holder
}.

(** [yaml_loaded] is the outcome of reading the configuration file
    ([None]: it cannot be read or parsed); [lk] is the lock file as the
    run finds it. *)
Definition main (a : args) (w : world) (yaml_loaded : option config) (lk : lock_holder)
  : finished :=
  match yaml_loaded with
  | None => {| exit_code := 1; final := initial; lock_after := lk |}
  | Some cfg =>
      match cfg_enabled cfg with
      | None => {| exit_code := 1; final := initial; lock_after := lk |}
      | Some enabled =>
          if negb (Py.eq enabled (VBool true)) then
            (* [sys.exit(0)]: [SystemExit] is no [Exception] *)
            {| exit_code := 0; final := initial; lock_after := lk |}
          else
            match acquire lk with
            | None =>
                (* [AlreadyLocked]; the [finally] cannot release either *)
                {| exit_code := 1; final := initial; lock_after := lk |}
            | Some held =>
                match cfg_items cfg with
                | None =>
                    {| exit_code := 1; final := initial;
                       lock_after := default held (release held) |}
                | Some items =>
                    let '(o, st) := loop a w 0 items initial in
                    let failed :=
                      match o with
                      | Next _ => bool_decide (0 < errors st)
                      | _ => true
                      end in
                    match release held with
                    | Some freed =>
                        {| exit_code := if failed then 1 else 0;
                           final := st; lock_after := freed |}
                    | None =>
                        {| exit_code := 1; final := st; lock_after := held |}
                    end
                end
            end
      end
  end.


(** ** The console text of [log_and_print] *)

(** [text.replace("False", "F_alse")] of [log_and_print]: the text is read
    from the left, an occurrence is replaced and reading goes on behind it. *)
Fixpoint text_safe (s : string) : string :=
  match s with
  | "" => ""
  | String c s1 =>
      match s1 with
      | String _ (String _ (String _ (String _ rest))) =>
          if String.prefix "False" s then "F_alse" +:+ text_safe rest
          else String c (text_safe s1)
      | _ => String c (text_safe s1)
      end
  end.

(** The text without its first [n] characters. *)
Fixpoint skip (n : nat) (s : string) : string :=
  match n, s with
  | S n', String _ s' => skip n' s'
  | _, _ => s
  end.

(** The text has no character [c]. *)
Definition lacks (c : ascii) (s : string) : bool := negb (Py.has_char c s).


(** * Notions used to state the properties *)

(** ** Defaults, as a table *)

Definition assoc (k : string) (table : list (string * value)) : option value :=
  snd <$> List.find (λ kv, String.eqb (fst kv) k) table.

Definition default_table : list (string * value) :=
  [ ("retain_daily", VInt 7); ("retain_weekly", VInt 4); ("retain_monthly", VInt 3);
    ("connect_user", VStr "root"); ("validate_hostname", VBool true);
    ("mysql_noevents", VBool false); ("postgresql_noclean", VBool false);
    ("native_txt_check", VBool false); ("native_10h_limit", VBool false);
    ("rsync_args", VStr ""); ("mysql_dump_dir", VStr "/var/backups/mysql");
    ("postgresql_dump_dir", VStr "/var/backups/postgresql");
    ("mongodb_dump_dir", VStr "/var/backups/mongodb");
    ("mysqldump_args", VStr ""); ("pg_dump_args", VStr ""); ("mongo_args", VStr "");
    ("xtrabackup_throttle", VStr "20"); ("xtrabackup_parallel", VStr "2");
    ("xtrabackup_compress_threads", VStr "2"); ("xtrabackup_args", VStr "") ].

Definition verbosity_table (debug : bool) : list (string * value) :=
  if debug then
    [ ("verbosity_level", VInt 5);
      ("rsync_verbosity_args", VStr "--human-readable --progress") ]
  else
    [ ("verbosity_level", VInt 2); ("rsync_verbosity_args", VStr "") ].


(** ** [connect], by the words of the specification *)

(** The text in front of the first [":"] (all of it when there is none). *)
Fixpoint before_colon (s : string) : string :=
  match s with
  | "" => ""
  | String c s' => if Ascii.eqb c ":" then "" else String c (before_colon s')
  end.

(** The text behind the first [":"] (nothing when there is none). *)
Fixpoint after_colon (s : string) : string :=
  match s with
  | "" => ""
  | String c s' => if Ascii.eqb c ":" then s' else after_colon s'
  end.

(** The default port of a transport: 22 for the types that go over SSH,
    873 for native rsync. *)
Definition default_port_of (ty : string) : option Z :=
  if bool_decide (ty ∈ ["RSYNC_SSH"; "MYSQL_SSH"; "POSTGRESQL_SSH"; "MONGODB_SSH"]) then Some 22%Z
  else if bool_decide (ty = "RSYNC_NATIVE") then Some 873%Z
  else None.

(** ** Invariants of a pass *)

(** [m] keeps [I]: whatever the outcome, a state in [I] is left in [I]. *)
Definition preserves {A} (I : run_state → Prop) (m : M A) : Prop :=
  ∀ st, I st → I (m st).2.

(** ** Backup lines, by the words of the specification *)



(** ** Retention lines, by the words of the specification *)



(** ** Rotations, counted on the trace *)

Definition path_is (p : value) (it : item) : bool :=
  match it !! "path" with
  | Some q => Py.eq q p
  | None => false
  end.

(** The entry is a run of the rotation tool for an item whose path is [p]. *)
Definition rotates (items : list item) (p : value) (e : nat * site) : bool :=
  bool_decide (e.2 = RsnapshotRotate) &&
  match items !! e.1 with
  | Some it => path_is p it
  | None => false
  end.

Definition rotations (items : list item) (p : value) (t : list (nat * site)) : nat :=
  length (List.filter (rotates items p) t).

(** The item has no [before_backup_check], or its check returns 0. *)
Definition check_passes (w : world) (idx : nat) (it : item) : bool :=
  match it !! "before_backup_check" with
  | None => true
  | Some _ =>
      match answer w idx BeforeBackupCheck with
      | Exit retcode _ => (retcode =? 0)%Z
      | Fault => false
      end
  end.

(** The stages in front of [rotate]: they leave the rotated paths alone and
    run at most the precondition check. *)
Definition prelude_kept (items : list item) (p : value) (st0 st : run_state) : Prop :=
  paths_processed st = paths_processed st0
  ∧ rotations items p (trace st) = rotations items p (trace st0).

(** The invariant of the loop in a rotation mode: a path has been rotated
    once if it is among the rotated paths, and not at all otherwise. *)
Definition rotated_once (items : list item) (st : run_state) : Prop :=
  ∀ p, rotations items p (trace st) = if Py.mem p (paths_processed st) then 1 else 0.

(** The item reaches the rotation step of its pass. *)
Definition reaches_rotation (a : args) (w : world) (idx : nat) (it : item) : Prop :=
  selected a it = Some true ∧ is_Some (it !! "number") ∧ check_passes w idx it = true.

(** ** Whitespace, by the words of the specification *)

Fixpoint all_space (s : string) : bool :=
  match s with
  | "" => true
  | String c s' => Py.is_space c && all_space s'
  end.

(** The text does not begin with whitespace. *)
Definition starts_clean (s : string) : bool :=
  match s with
  | "" => true
  | String c _ => negb (Py.is_space c)
  end.

(** The text does not end with whitespace. *)
Fixpoint ends_clean (s : string) : bool :=
  match s with
  | "" => true
  | String c "" => negb (Py.is_space c)
  | String _ s' => ends_clean s'
  end.

(** ** Traces, rotated paths and the checks in front of a sync *)

(** The rotated paths are pairwise different, by the comparison of
    [item["path"] in paths_processed]. *)
Fixpoint distinct (l : list value) : bool :=
  match l with
  | [] => true
  | x :: l' => negb (Py.mem x l') && distinct l'
  end.

(** The sites from which a rotation starts commands. *)
Definition rotation_site (s : site) : bool :=
  match s with
  | BeforeBackupCheck | RsnapshotRotate => true
  | _ => false
  end.

(** The entries of the trace added since [st0]. *)
Definition trace_since (st0 st : run_state) (P : nat * site → Prop) : Prop :=
  ∃ new, trace st = (trace st0 ++ new)%list ∧ Forall P new.

(** The command that the item at [idx] starts from [s] returns 0. *)
Definition returns_0 (w : world) (idx : nat) (s : site) : bool :=
  match answer w idx s with
  | Exit retcode _ => (retcode =? 0)%Z
  | Fault => false
  end.

(** The entry is a command that returned 0, or the first probe of the SSH
    connection, whose failure the loopback authorization may repair. *)
Definition went_well (w : world) (e : nat * site) : Prop :=
  e.2 = SshCheck ∨ returns_0 w e.1 e.2 = true.

(** While no error is counted, every command that was run went well. *)
Definition clean (w : world) (st : run_state) : Prop :=
  errors st = 0 → Forall (went_well w) (trace st).

(** [m] keeps [clean] unless it raises: an exception is counted by the
    [except] of the item. *)
Definition sound {A} (w : world) (m : M A) : Prop :=
  ∀ st, clean w st →
        match m st with
        | (Raised, _) => True
        | (_, st') => clean w st'
        end.

(** The SSH connection of the item works: the first probe returns 0, or
    the item is of this very host and the loopback authorization and the
    second probe return 0. *)
Definition ssh_reachable (w : world) (idx : nat) (it : item) : bool :=
  returns_0 w idx SshCheck
  || (match it !! "host" with
      | Some h => Py.eq h (VStr (SELF_HOSTNAME w))
      | None => false
      end
      && returns_0 w idx LoopbackAuthorize && returns_0 w idx SshRecheck).

(** The remote [hostname] returns 0 and its output, stripped, is the
    [host] of the item. *)
Definition hostname_matches (w : world) (idx : nat) (it : item) : bool :=
  match answer w idx HostnameQuery, it !! "host" with
  | Exit retcode stdout, Some h =>
      (retcode =? 0)%Z && Py.eq (VStr (Py.rstrip (Py.lstrip stdout))) h
  | _, _ => false
  end.

(** The item at [idx] has not started its sync. *)
Definition no_sync (idx : nat) (st : run_state) : Prop :=
  (idx, RsnapshotSync) ∉ trace st.

Definition not_sync (s : site) : bool := bool_decide (s ≠ RsnapshotSync).

(** The commands that the stages in front of the sync have started when
    they let the pass go on: the check of the item, if it has one. *)
Definition check_trace (idx : nat) (it : item) : list (nat * site) :=
  match it !! "before_backup_check" with
  | Some _ => [(idx, BeforeBackupCheck)]
  | None => []
  end.

(** The pass has counted one error and done nothing else that lasts: no
    file is written, no path recorded, and no command started but the
    check of the item. *)
Definition one_error_only (idx : nat) (it : item) (st st' : run_state) : Prop :=
  errors st' = S (errors st)
  ∧ paths_processed st' = paths_processed st
  ∧ conf_file st' = conf_file st
  ∧ passwd_file st' = passwd_file st
  ∧ trace st' = (trace st ++ check_trace idx it)%list.

(** The sync has counted one error and has left the files, the rotated
    paths and the trace as they were. *)
Definition sync_refused (st st' : run_state) : Prop :=
  errors st' = S (errors st)
  ∧ paths_processed st' = paths_processed st
  ∧ conf_file st' = conf_file st
  ∧ passwd_file st' = passwd_file st
  ∧ trace st' = trace st.

(** The item after the split of its [connect], the text [s]. *)
Definition connected (dflt : Z) (s : string) (it : item) : item :=
  <["connect_port" :=
      if Py.has_char ":" s then VStr (before_colon (after_colon s)) else VInt dflt]>
    (<["connect_host" := VStr (before_colon s)]> it).

(** A plain copy over SSH: the type is an SSH type and no database, the
    [connect] is the text [s], and the item has no hooks. *)
Definition plain_ssh (it : item) (s : string) : Prop :=
  (∃ ty, it !! "type" = Some ty ∧ is_ssh_type ty = true ∧ is_db_type ty = false)
  ∧ it !! "connect" = Some (VStr s)
  ∧ it !! "exec_before_rsync" = None
  ∧ it !! "exec_after_rsync" = None.

(** The configuration file of the sync of an item over SSH. *)
Definition rendered_ssh (it : item) : option string :=
  lines ← conf_backup_lines it; conf_sync_ssh lines it.

(** A native item: the type is the native one, the [connect] is the
    text [s] and the password the text [pw]. *)
Definition plain_native (it : item) (s pw : string) : Prop :=
  (∃ ty, it !! "type" = Some ty ∧ is_ssh_type ty = false ∧ is_native_type ty = true)
  ∧ it !! "connect" = Some (VStr s)
  ∧ it !! "connect_password" = Some (VStr pw).

(** The item asks for the check for the marker file. *)
Definition txt_check_wanted (it : item) : bool :=
  match it !! "native_txt_check" with
  | Some v => Py.truthy v
  | None => false
  end.

Definition txt_trace (idx : nat) (it : item) : list (nat * site) :=
  if txt_check_wanted it then [(idx, NativeTxtCheck)] else [].

(** ** The lines of a generated file, and what a pass leaves of it *)

(** The lines of a text, as [text.split("\n")] gives them. *)
Definition conf_lines (text : string) : list string :=
  Py.split (ascii_of_nat 10) text.

(** The lines of a text that begin with [word]: its active directives of
    that name. *)
Definition directives (word text : string) : list string :=
  List.filter (String.prefix word) (conf_lines text).












(** ** Sample runs *)

Definition args_sync : args :=
  {| debug := false; item_number := None; host := None; run_mode := Sync |}.

Definition args_daily : args :=
  {| debug := false; item_number := None; host := None; run_mode := RotateDaily |}.

(** Every command returns 0 and prints nothing, but for the sites of [f]. *)
Definition world_with (f : site → option result) : world :=
  {| SELF_HOSTNAME := "backup1";
     answer := λ _ s, default (Exit 0 "") (f s) |}.

Definition item_ssh (number : Z) (path : string) : item :=
  {[ "enabled" := VBool true; "number" := VInt number; "host" := VStr "db1";
     "type" := VStr "RSYNC_SSH"; "path" := VStr path;
     "connect" := VStr "10.0.0.1"; "source" := VStr "/srv" ]}.

Definition item_native : item :=
  {[ "enabled" := VBool true; "number" := VInt 7; "host" := VStr "win1";
     "type" := VStr "RSYNC_NATIVE"; "path" := VStr "/backup/win1";
     "connect" := VStr "10.0.0.7"; "source" := VStr "/data";
     "connect_password" := VStr "secret"; "native_txt_check" := VBool true ]}.

Definition world_db2 : world :=
  world_with (λ s, match s with HostnameQuery => Some (Exit 0 "db2") | _ => None end).

Definition world_db1 : world :=
  world_with (λ s, match s with
                   | HostnameQuery => Some (Exit 0 (" db1 " +:+ NL))
                   | _ => None
                   end).

Definition world_check_fails : world :=
  world_with (λ s, match s with BeforeBackupCheck => Some (Exit 1 "") | _ => None end).

Definition world_txt_fails : world :=
  world_with (λ s, match s with NativeTxtCheck => Some (Exit 1 "") | _ => None end).


(** Line [n] (from 0) of a generated file. *)
Definition line_of (n : nat) (text : option string) : option string :=
  text ≫= λ t, Py.split (ascii_of_nat 10) t !! n.


Definition config_of (items : list item) : config :=
  {| cfg_enabled := Some (VBool true); cfg_items := Some items |}.

(** An item of a type that the script does not know. *)
Definition item_ftp : item := <["type" := VStr "FTP"]> (item_ssh 1 "/backup/db1").

(** A native item that gives no password. *)
Definition item_native_open : item := delete "connect_password" item_native.

(** An item without [enabled]: the filters raise [KeyError] on it. *)
Definition item_no_enabled : item := {[ "number" := VInt 2 ]}.



(** The large definitions are unfolded on request only. *)
Arguments apply_defaults : simpl never.
Arguments conf_rotation : simpl never.
Arguments conf_sync_ssh : simpl never.
Arguments conf_sync_native : simpl never.
Arguments conf_backup_lines : simpl never.
Arguments data_expand_get : simpl never.
Arguments text_of : simpl never.

(** * Properties *)

(** ** Item defaults *)

Lemma lookup_setdefault k v (it : item) j :
  setdefault k v it !! j =
  match it !! j with
  | Some x => Some x
  | None => if decide (k = j) then Some v else None
  end.
Proof.
  unfold setdefault. destruct (it !! k) eqn:Hk.
  - destruct (it !! j) eqn:Hj; [done|]. case_decide; congruence.
  - rewrite lookup_insert. case_decide; subst.
    + by rewrite Hk.
    + by destruct (it !! j).
Qed.

Ltac key_case k0 k :=
  let Hne := fresh "Hne" in
  destruct (decide (k0 = k)) as [<-|Hne];
  [ vm_compute; reflexivity
  | apply String.eqb_neq in Hne; rewrite ?Hne; cbn [fst snd] ].

(** What [apply_defaults] leaves under a key: the verbosity setting, else
    the value the item had, else the default. *)
Lemma apply_defaults_lookup d (it : item) k :
  apply_defaults d it !! k =
  match assoc k (verbosity_table d) with
  | Some v => Some v
  | None =>
      match it !! k with
      | Some v => Some v
      | None => assoc k default_table
      end
  end.
Proof.
  unfold apply_defaults, assoc, verbosity_table, default_table.
  destruct d; rewrite ?lookup_setdefault, ?lookup_insert, ?lookup_setdefault;
    destruct (it !! k) eqn:Hk; cbn [List.find fst snd].
  all: key_case "verbosity_level" k.
  all: key_case "rsync_verbosity_args" k.
  all: try done.
  all: key_case "retain_daily" k.
  all: key_case "retain_weekly" k.
  all: key_case "retain_monthly" k.
  all: key_case "connect_user" k.
  all: key_case "validate_hostname" k.
  all: key_case "mysql_noevents" k.
  all: key_case "postgresql_noclean" k.
  all: key_case "native_txt_check" k.
  all: key_case "native_10h_limit" k.
  all: key_case "rsync_args" k.
  all: key_case "mysql_dump_dir" k.
  all: key_case "postgresql_dump_dir" k.
  all: key_case "mongodb_dump_dir" k.
  all: key_case "mysqldump_args" k.
  all: key_case "pg_dump_args" k.
  all: key_case "mongo_args" k.
  all: key_case "xtrabackup_throttle" k.
  all: key_case "xtrabackup_parallel" k.
  all: key_case "xtrabackup_compress_threads" k.
  all: key_case "xtrabackup_args" k.
  all: done.
Qed.

Lemma apply_defaults_keep d (it : item) k v :
  assoc k (verbosity_table d) = None →
  it !! k = Some v →
  apply_defaults d it !! k = Some v.
Proof. intros Hv Hk. by rewrite apply_defaults_lookup, Hv, Hk. Qed.

Lemma apply_defaults_other d (it : item) k :
  assoc k (verbosity_table d) = None →
  assoc k default_table = None →
  apply_defaults d it !! k = it !! k.
Proof.
  intros Hv Hd. rewrite apply_defaults_lookup, Hv, Hd. by destruct (it !! k).
Qed.

Lemma apply_defaults_idempotent d (it : item) :
  apply_defaults d (apply_defaults d it) = apply_defaults d it.
Proof.
  apply map_eq. intros k. rewrite !apply_defaults_lookup.
  destruct (assoc k (verbosity_table d)); [done|].
  destruct (it !! k); [done|].
  by destruct (assoc k default_table).
Qed.

Lemma defaulted_keys_not_verbosity d k :
  k ∈ defaulted_keys → assoc k (verbosity_table d) = None.
Proof.
  unfold defaulted_keys. rewrite !elem_of_cons, elem_of_nil.
  intros H. destruct d; repeat (destruct H as [->|H]; [reflexivity|]); done.
Qed.

(** Every defaulted key is present after the defaults. *)
Lemma defaulted_keys_present d (it : item) k :
  k ∈ defaulted_keys → is_Some (apply_defaults d it !! k).
Proof.
  intros Hk. rewrite apply_defaults_lookup.
  rewrite (defaulted_keys_not_verbosity d k Hk).
  destruct (it !! k); [by eexists|].
  revert Hk. unfold defaulted_keys. rewrite !elem_of_cons, elem_of_nil.
  intros H. repeat (destruct H as [->|H]; [by eexists|]). done.
Qed.

(** The two verbosity keys are assigned from the debug flag, whatever the
    item had under them. *)
Lemma verbosity_keys_assigned d (it : item) k :
  k ∈ verbosity_keys → apply_defaults d it !! k = assoc k (verbosity_table d).
Proof.
  unfold verbosity_keys. rewrite !elem_of_cons, elem_of_nil.
  intros [->|[->|[]]]; rewrite apply_defaults_lookup; by destruct d.
Qed.

(** C9: applying the item defaults twice (under the same debug flag) gives
    the same item as applying them once, and a field that the item
    supplies under one of the defaulted keys keeps its value, whatever
    it is; in particular [false] and [0] are not replaced by the default. *)
Theorem defaults_idempotent_keep_explicit (d : bool) (it : item) :
  apply_defaults d (apply_defaults d it) = apply_defaults d it
  ∧ ∀ k v, k ∈ defaulted_keys → it !! k = Some v → apply_defaults d it !! k = Some v.
Proof.
  split; [apply apply_defaults_idempotent|].
  intros k v Hk Hv. apply apply_defaults_keep; [|done].
  by apply defaulted_keys_not_verbosity.
Qed.

Lemma defaults_idempotent_keep_explicit_witness :
  let it : item := {[ "retain_daily" := VInt 0; "validate_hostname" := VBool false ]} in
  apply_defaults true it !! "retain_daily" = Some (VInt 0)
  ∧ apply_defaults true it !! "validate_hostname" = Some (VBool false).
Proof.
  intros it.
  destruct (defaults_idempotent_keep_explicit true it) as [_ Hkeep].
  split; apply Hkeep; try reflexivity.
  - unfold defaulted_keys. apply list_elem_of_here.
  - unfold defaulted_keys. do 4 apply list_elem_of_further. apply list_elem_of_here.
Defined.

(** ** The monad *)

Lemma preserves_ret {A} I (x : A) : preserves I (ret x).
Proof. by intros st. Qed.

Lemma preserves_bind {A B} I (m : M A) (k : A → M B) :
  preserves I m → (∀ x, preserves I (k x)) → preserves I (bind m k).
Proof.
  intros Hm Hk st HI. unfold bind. specialize (Hm st HI).
  destruct (m st) as [[x| |] st']; simpl in *; [by apply Hk|done..].
Qed.

Lemma preserves_continue {A} I : preserves I (@continue_ A).
Proof. by intros st. Qed.

Lemma preserves_raise {A} I : preserves I (@raise_ A).
Proof. by intros st. Qed.

Lemma preserves_getitem I k : preserves I (getitem k).
Proof. intros st HI. unfold getitem. by destruct (cur st !! k). Qed.

Lemma preserves_has_key I k : preserves I (has_key k).
Proof. by intros st. Qed.

Lemma bind_next {A B} (m : M A) (k : A → M B) st x st' :
  m st = (Next x, st') → bind m k st = k x st'.
Proof. unfold bind. by intros ->. Qed.

(** Invariants that do not look at the parts of the state a stage writes. *)
Section Stages.

Variable w : world.
Variable idx : nat.
Variable I : run_state → Prop.
(** The call sites whose commands keep [I]. *)
Variable quiet : site → bool.

Hypothesis I_errors : ∀ n st, I st → I (set_errors n st).
Hypothesis I_conf : ∀ c st, I st → I (set_conf c st).
Hypothesis I_passwd : ∀ f st, I st → I (set_passwd f st).
Hypothesis I_trace :
  ∀ s st, quiet s = true → I st → I (set_trace (trace st ++ [(idx, s)]) st).

Lemma preserves_count_error : preserves I count_error.
Proof. intros st HI. by apply I_errors. Qed.

Lemma preserves_run_cmd s : quiet s = true → preserves I (run_cmd w idx s).
Proof.
  intros Hs st HI. unfold run_cmd.
  destruct (answer w idx s); simpl; by apply I_trace.
Qed.

Lemma preserves_run_cmd_pipe s : quiet s = true → preserves I (run_cmd_pipe w idx s).
Proof.
  intros Hs st HI. unfold run_cmd_pipe.
  destruct (answer w idx s); simpl; by apply I_trace.
Qed.

Lemma preserves_must_succeed s : quiet s = true → preserves I (must_succeed w idx s).
Proof.
  intros Hs. apply preserves_bind; [by apply preserves_run_cmd|].
  intros rc. destruct (rc =? 0)%Z; [apply preserves_ret|].
  apply preserves_bind; [apply preserves_count_error|]. intros _. apply preserves_continue.
Qed.

Lemma preserves_may_fail s : quiet s = true → preserves I (may_fail w idx s).
Proof.
  intros Hs. apply preserves_bind; [by apply preserves_run_cmd|].
  intros rc. destruct (rc =? 0)%Z; [apply preserves_ret|apply preserves_count_error].
Qed.

Lemma preserves_write_conf render : preserves I (write_conf render).
Proof.
  intros st HI. unfold write_conf. destruct (render (cur st)); simpl; by apply I_conf.
Qed.

Lemma preserves_before_backup_check :
  quiet BeforeBackupCheck = true → preserves I (before_backup_check w idx).
Proof.
  intros Hq. apply preserves_bind; [apply preserves_has_key|].
  intros []; [by apply preserves_must_succeed|apply preserves_ret].
Qed.

Lemma preserves_check_ssh :
  quiet SshCheck = true → quiet LoopbackAuthorize = true → quiet SshRecheck = true →
  preserves I (check_ssh w idx).
Proof.
  intros H1 H2 H3. apply preserves_bind; [by apply preserves_run_cmd|].
  intros rc. destruct (rc =? 0)%Z; [apply preserves_ret|].
  apply preserves_bind; [apply preserves_getitem|]. intros h.
  destruct (Py.eq h _).
  - apply preserves_bind; [by apply preserves_must_succeed|].
    intros _. by apply preserves_must_succeed.
  - apply preserves_bind; [apply preserves_count_error|]. intros _. apply preserves_continue.
Qed.

Lemma preserves_validate_hostname :
  quiet HostnameQuery = true → preserves I (validate_hostname w idx).
Proof.
  intros Hq. apply preserves_bind; [apply preserves_getitem|]. intros _.
  apply preserves_bind; [by apply preserves_run_cmd_pipe|]. intros [rc out].
  destruct (rc =? 0)%Z.
  - apply preserves_bind; [apply preserves_getitem|]. intros h.
    destruct (Py.eq _ h); [apply preserves_ret|].
    apply preserves_bind; [apply preserves_count_error|]. intros _. apply preserves_continue.
  - apply preserves_bind; [apply preserves_count_error|]. intros _. apply preserves_continue.
Qed.

Lemma preserves_hook k s : quiet s = true → preserves I (hook w idx k s).
Proof.
  intros Hq. apply preserves_bind; [apply preserves_has_key|].
  intros []; [by apply preserves_may_fail|apply preserves_ret].
Qed.

Lemma preserves_grep_db_filter : preserves I grep_db_filter.
Proof.
  apply preserves_bind; [apply preserves_has_key|].
  intros []; [|apply preserves_ret].
  apply preserves_bind; [apply preserves_getitem|].
  intros []; first [apply preserves_ret | apply preserves_raise].
Qed.

Lemma preserves_db_dump :
  quiet RemoteDump = true → quiet RemoveParts = true → preserves I (db_dump w idx).
Proof.
  intros H1 H2. apply preserves_bind; [apply preserves_getitem|]. intros ty.
  destruct (is_db_type ty); [|apply preserves_ret].
  apply preserves_bind; [apply preserves_grep_db_filter|]. intros _.
  apply preserves_bind; [apply preserves_getitem|]. intros _.
  apply preserves_bind; [by apply preserves_must_succeed|]. intros _.
  apply preserves_bind; [apply preserves_getitem|]. intros _.
  by apply preserves_may_fail.
Qed.

Lemma preserves_save_conf_ssh : preserves I save_conf_ssh.
Proof.
  intros st HI. unfold save_conf_ssh.
  destruct (conf_backup_lines (cur st)); [by apply preserves_write_conf|done].
Qed.

Lemma preserves_write_passwd : preserves I write_passwd.
Proof.
  intros st HI. unfold write_passwd.
  destruct (cur st !! "connect_password") as [[]|]; simpl; by apply I_passwd.
Qed.

Lemma preserves_remove_passwd : preserves I remove_passwd.
Proof. intros st HI. by apply I_passwd. Qed.

Lemma preserves_native_txt_check :
  quiet NativeTxtCheck = true → preserves I (native_txt_check w idx).
Proof.
  intros Hq. apply preserves_bind; [apply preserves_getitem|]. intros v.
  destruct (Py.truthy v); [|apply preserves_ret].
  apply preserves_bind; [apply preserves_getitem|]. intros _.
  by apply preserves_must_succeed.
Qed.

End Stages.

(** ** [connect] *)

Lemma split_colon s :
  Py.split ":" s =
  before_colon s :: (if Py.has_char ":" s then Py.split ":" (after_colon s) else []).
Proof.
  induction s as [|c s IH]; [done|]. simpl.
  destruct (Ascii.eqb c ":"); [done|]. rewrite IH. by destruct (Py.has_char ":" s).
Qed.

Lemma before_colon_all s : Py.has_char ":" s = false → before_colon s = s.
Proof.
  induction s as [|c s IH]; [done|]. simpl.
  destruct (Ascii.eqb c ":"); [done|]. intros H. by rewrite IH.
Qed.

Lemma derive_connect_str dflt st s :
  cur st !! "connect" = Some (VStr s) →
  derive_connect dflt st =
  (Next tt,
   set_cur (<["connect_port" :=
               if Py.has_char ":" s then VStr (before_colon (after_colon s)) else VInt dflt]>
              (<["connect_host" := VStr (before_colon s)]> (cur st))) st).
Proof.
  intros Hc. unfold derive_connect, bind, getitem. rewrite Hc.
  destruct (Py.has_char ":" s) eqn:Hcolon.
  - rewrite split_colon, Hcolon, (split_colon (after_colon s)). reflexivity.
  - by rewrite before_colon_all.
Qed.

Lemma bind_cur {A B} (m : M A) (k : A → M B) st :
  (∀ x c, preserves (λ s, cur s = c) (k x)) →
  cur (bind m k st).2 = cur (m st).2.
Proof.
  intros Hk. unfold bind. destruct (m st) as [[x| |] st']; simpl; [|done..].
  by apply Hk.
Qed.

Ltac pres_stage q :=
  first
    [ apply preserves_ret | apply preserves_continue | apply preserves_raise
    | apply preserves_getitem | apply preserves_has_key
    | apply (preserves_count_error)
    | apply (preserves_check_ssh _ _ _ q)
    | apply (preserves_validate_hostname _ _ _ q)
    | apply (preserves_hook _ _ _ q)
    | apply (preserves_db_dump _ _ _ q)
    | apply (preserves_save_conf_ssh)
    | apply (preserves_may_fail _ _ _ q)
    | apply (preserves_must_succeed _ _ _ q)
    | apply (preserves_before_backup_check _ _ _ q)
    | apply (preserves_write_passwd)
    | apply (preserves_remove_passwd)
    | apply (preserves_native_txt_check _ _ _ q)
    | apply (preserves_write_conf) ];
  try done.

Ltac pres_chain q :=
  repeat first [ pres_stage q | apply preserves_bind; [|intros ?] ].

Lemma sync_ssh_cur w idx st :
  cur (sync_ssh w idx st).2 = cur (derive_connect 22 st).2.
Proof.
  unfold sync_ssh. apply bind_cur. intros _ c.
  pres_chain (λ _ : site, true).
Qed.

Lemma sync_native_cur w idx st :
  cur (sync_native w idx st).2 = cur (derive_connect 873 st).2.
Proof.
  unfold sync_native. apply bind_cur. intros _ c.
  apply preserves_bind.
  { apply preserves_bind; [apply preserves_has_key|].
    intros []; pres_chain (λ _ : site, true). }
  intros _. pres_chain (λ _ : site, true).
Qed.

Lemma sync_cur_ssh w idx st ty :
  cur st !! "type" = Some ty → is_ssh_type ty = true →
  cur (sync w idx st).2 = cur (derive_connect 22 st).2.
Proof.
  intros Hty Hssh. unfold sync, bind at 1, getitem. rewrite Hty, Hssh.
  apply sync_ssh_cur.
Qed.

Lemma sync_cur_native w idx st ty :
  cur st !! "type" = Some ty → is_ssh_type ty = false → is_native_type ty = true →
  cur (sync w idx st).2 = cur (derive_connect 873 st).2.
Proof.
  intros Hty Hssh Hnat. unfold sync, bind at 1, getitem. rewrite Hty, Hssh, Hnat.
  apply sync_native_cur.
Qed.

Lemma default_port_of_cases ty dflt :
  default_port_of ty = Some dflt →
  (is_ssh_type (VStr ty) = true ∧ dflt = 22%Z) ∨
  (is_ssh_type (VStr ty) = false ∧ is_native_type (VStr ty) = true ∧ dflt = 873%Z).
Proof.
  unfold default_port_of. case_bool_decide as Hssh.
  - intros [= <-]. left. split; [|done].
    rewrite !elem_of_cons, elem_of_nil in Hssh.
    destruct Hssh as [->|[->|[->|[->|[]]]]]; reflexivity.
  - case_bool_decide as Hnat; [|done]. intros [= <-]. right. by subst ty.
Qed.

(** C10 (amended): in a sync, for an item whose [connect] is a text, the
    derived [connect_host] is the text in front of the first colon.  Without
    a colon that is all of [connect], and [connect_port] is 22 for the SSH
    types (RSYNC_SSH, MYSQL_SSH, POSTGRESQL_SSH, MONGODB_SSH) and 873 for
    RSYNC_NATIVE; with a colon, [connect_port] is the text between the
    first colon and the next one (or the end of [connect]). *)
Theorem connect_host_and_port w idx st ty s dflt :
  cur st !! "type" = Some (VStr ty) →
  cur st !! "connect" = Some (VStr s) →
  default_port_of ty = Some dflt →
  let it' := cur (sync w idx st).2 in
  it' !! "connect_host" = Some (VStr (before_colon s))
  ∧ (Py.has_char ":" s = false →
       before_colon s = s ∧ it' !! "connect_port" = Some (VInt dflt))
  ∧ (Py.has_char ":" s = true →
       it' !! "connect_port" = Some (VStr (before_colon (after_colon s)))).
Proof.
  intros Hty Hc Hd it'.
  assert (it' = cur (derive_connect dflt st).2) as ->.
  { subst it'. destruct (default_port_of_cases _ _ Hd) as [[? ->]|(? & ? & ->)];
      eauto using sync_cur_ssh, sync_cur_native. }
  rewrite (derive_connect_str _ _ _ Hc). simpl.
  split; [by rewrite lookup_insert_ne, lookup_insert_eq|].
  split; intros Hcolon; rewrite Hcolon, lookup_insert_eq; [|done].
  split; [by apply before_colon_all|done].
Qed.

(** ** Backup lines *)







(** ** Retention lines *)



Lemma bind_continue {A B} (m : M A) (k : A → M B) st st' :
  m st = (Continue, st') → bind m k st = (Continue, st').
Proof. unfold bind. by intros ->. Qed.

Lemma bind_raised {A B} (m : M A) (k : A → M B) st st' :
  m st = (Raised, st') → bind m k st = (Raised, st').
Proof. unfold bind. by intros ->. Qed.

Lemma getitem_some k v st : cur st !! k = Some v → getitem k st = (Next v, st).
Proof. unfold getitem. by intros ->. Qed.

Lemma getitem_none k st : cur st !! k = None → getitem k st = (Raised, st).
Proof. unfold getitem. by intros ->. Qed.

Lemma has_key_some k v st : cur st !! k = Some v → has_key k st = (Next true, st).
Proof. unfold has_key. intros ->. by rewrite bool_decide_eq_true_2. Qed.

Lemma has_key_none k st : cur st !! k = None → has_key k st = (Next false, st).
Proof.
  unfold has_key. intros ->. rewrite bool_decide_eq_false_2; [done|]. by intros [? ?].
Qed.

Lemma default_item_eq a st :
  default_item a st = (Next tt, set_cur (apply_defaults (debug a) (cur st)) st).
Proof. reflexivity. Qed.

Lemma run_cmd_eq w idx s st :
  run_cmd w idx s st =
  match answer w idx s with
  | Exit retcode _ => (Next retcode, set_trace (trace st ++ [(idx, s)]) st)
  | Fault => (Raised, set_trace (trace st ++ [(idx, s)]) st)
  end.
Proof. unfold run_cmd. by destruct (answer w idx s). Qed.

Lemma must_succeed_eq w idx s st :
  must_succeed w idx s st =
  let st' := set_trace (trace st ++ [(idx, s)]) st in
  match answer w idx s with
  | Exit retcode _ =>
      if (retcode =? 0)%Z then (Next tt, st')
      else (Continue, set_errors (S (errors st)) st')
  | Fault => (Raised, st')
  end.
Proof.
  unfold must_succeed, bind. rewrite run_cmd_eq.
  destruct (answer w idx s) as [rc ?|]; [|done]. by destruct (rc =? 0)%Z.
Qed.

Lemma may_fail_eq w idx s st :
  may_fail w idx s st =
  let st' := set_trace (trace st ++ [(idx, s)]) st in
  match answer w idx s with
  | Exit retcode _ =>
      if (retcode =? 0)%Z then (Next tt, st')
      else (Next tt, set_errors (S (errors st)) st')
  | Fault => (Raised, st')
  end.
Proof.
  unfold may_fail, bind. rewrite run_cmd_eq.
  destruct (answer w idx s) as [rc ?|]; [|done]. by destruct (rc =? 0)%Z.
Qed.

Lemma before_backup_check_eq w idx st :
  before_backup_check w idx st =
  match cur st !! "before_backup_check" with
  | Some _ => must_succeed w idx BeforeBackupCheck st
  | None => (Next tt, st)
  end.
Proof.
  unfold before_backup_check.
  destruct (cur st !! "before_backup_check") eqn:Hc.
  - by rewrite (bind_next _ _ _ true st) by (by eapply has_key_some).
  - by rewrite (bind_next _ _ _ false st) by (by eapply has_key_none).
Qed.

Lemma rotations_snoc items p t e :
  rotations items p (t ++ [e]) = rotations items p t + (if rotates items p e then 1 else 0).
Proof.
  unfold rotations. rewrite List.filter_app, length_app. simpl.
  by destruct (rotates items p e).
Qed.

Lemma py_eq_sym x y : Py.eq x y = Py.eq y x.
Proof. unfold Py.eq. apply bool_decide_ext. naive_solver. Qed.

Lemma py_eq_trans x y z : Py.eq x y = true → Py.eq y z = true → Py.eq x z = true.
Proof.
  unfold Py.eq. rewrite !bool_decide_eq_true. congruence.
Qed.

Lemma py_mem_eq x y l : Py.eq x y = true → Py.mem x l = Py.mem y l.
Proof.
  intros Hxy. unfold Py.mem. induction l as [|z l IH]; [done|]. simpl.
  rewrite IH. f_equal. unfold Py.eq in *. rewrite bool_decide_eq_true in Hxy.
  apply bool_decide_ext. by rewrite Hxy.
Qed.

Lemma py_mem_snoc x l q : Py.mem x (l ++ [q]) = Py.mem x l || Py.eq x q.
Proof. unfold Py.mem. rewrite existsb_app. simpl. by rewrite orb_false_r. Qed.

Lemma conf_rotation_emitted d (it : item) :
  is_Some (it !! "path") → is_Some (conf_rotation (apply_defaults d it)).
Proof.
  intros [path Hpath]. unfold conf_rotation, field.
  rewrite (apply_defaults_other d it "path"), Hpath by (by destruct d).
  destruct (defaulted_keys_present d it "retain_daily") as [? ->];
    [unfold defaulted_keys; set_solver|].
  destruct (defaulted_keys_present d it "retain_weekly") as [? ->];
    [unfold defaulted_keys; set_solver|].
  destruct (defaulted_keys_present d it "retain_monthly") as [? ->];
    [unfold defaulted_keys; set_solver|].
  rewrite (apply_defaults_lookup d it "verbosity_level").
  destruct d; by eexists.
Qed.

Lemma rotates_other items p idx s :
  s ≠ RsnapshotRotate → rotates items p (idx, s) = false.
Proof. intros Hs. unfold rotates. simpl. by rewrite bool_decide_eq_false_2. Qed.

Lemma rotate_effect w idx (items : list item) p it st :
  items !! idx = Some it →
  cur st !! "path" = it !! "path" →
  is_Some (conf_rotation (cur st)) →
  let st' := (rotate w idx st).2 in
  (errors st ≤ errors st') ∧
  (prelude_kept items p st st'
     ∧ (∀ q, it !! "path" = Some q → Py.mem q (paths_processed st) = true)
   ∨ ∃ q, it !! "path" = Some q
       ∧ Py.mem q (paths_processed st) = false
       ∧ paths_processed st' = (paths_processed st ++ [q])%list
       ∧ rotations items p (trace st') =
           rotations items p (trace st) + (if Py.eq q p then 1 else 0)).
Proof.
  intros Hidx Hpath [text Htext]. unfold rotate, bind, getitem. rewrite Hpath.
  destruct (it !! "path") as [q|] eqn:Hq; simpl; [|split; [done|by left]].
  destruct (Py.mem q (paths_processed st)) eqn:Hmem; simpl.
  { split; [done|left]. split; [done|]. by intros ? [= <-]. }
  assert (rotates items p (idx, RsnapshotRotate) = Py.eq q p) as Hrot.
  { unfold rotates, path_is. simpl. by rewrite Hidx, Hq. }
  unfold write_conf, may_fail, bind, run_cmd, count_error. simpl. rewrite Htext. simpl.
  destruct (answer w idx RsnapshotRotate) as [rc ?|]; simpl;
    [destruct (rc =? 0)%Z; simpl|].
  all: split; [lia|right; exists q; by rewrite rotations_snoc, Hrot].
Qed.

Lemma prelude_kept_refl items p st : prelude_kept items p st st.
Proof. by split. Qed.

(** The body of a pass in a rotation mode, stage by stage. *)
Lemma item_body_rotation a w idx (it : item) st :
  is_rotation (run_mode a) = true →
  item_body a w idx (set_cur it st) =
  match it !! "number" with
  | None => (Raised, set_cur it st)
  | Some _ =>
      let st1 := set_cur (apply_defaults (debug a) it) st in
      match it !! "before_backup_check" with
      | None => bind (rotate w idx) (λ _, ret tt) st1
      | Some _ =>
          let st2 := set_trace (trace st ++ [(idx, BeforeBackupCheck)]) st1 in
          match answer w idx BeforeBackupCheck with
          | Fault => (Raised, st2)
          | Exit retcode _ =>
              if (retcode =? 0)%Z then bind (rotate w idx) (λ _, ret tt) st2
              else (Continue, set_errors (S (errors st)) st2)
          end
      end
  end.
Proof.
  intros Hrot. unfold item_body. rewrite Hrot.
  destruct (it !! "number") as [number|] eqn:Hnumber;
    [|by rewrite (bind_raised _ _ _ (set_cur it st)) by (by apply getitem_none)].
  rewrite (bind_next _ _ _ number (set_cur it st)) by (by apply getitem_some).
  rewrite (bind_next _ _ _ tt _ (default_item_eq _ _)).
  set (st1 := set_cur _ (set_cur it st)).
  assert (before_backup_check w idx st1 =
          match it !! "before_backup_check" with
          | Some _ => must_succeed w idx BeforeBackupCheck st1
          | None => (Next tt, st1)
          end) as Hcheck.
  { rewrite before_backup_check_eq. subst st1. cbn [cur set_cur].
    by rewrite apply_defaults_other by (by destruct (debug a)). }
  destruct (it !! "before_backup_check") as [cmd|].
  - rewrite must_succeed_eq in Hcheck.
    destruct (answer w idx BeforeBackupCheck) as [rc out|].
    + destruct (rc =? 0)%Z.
      * by rewrite (bind_next _ _ _ _ _ Hcheck).
      * by rewrite (bind_continue _ _ _ _ Hcheck).
    + by rewrite (bind_raised _ _ _ _ Hcheck).
  - by rewrite (bind_next _ _ _ _ _ Hcheck).
Qed.

(** What the tail of a pass, [rotate], does to the rotated paths and to the
    count of rotations, from a state that the stages in front have left. *)
Lemma rotate_tail_effect a w idx (items : list item) p it st st2 :
  items !! idx = Some it →
  cur st2 = apply_defaults (debug a) it →
  paths_processed st2 = paths_processed st →
  rotations items p (trace st2) = rotations items p (trace st) →
  let st' := (bind (rotate w idx) (λ _, ret tt) st2).2 in
  (prelude_kept items p st st'
     ∧ (∀ q, it !! "path" = Some q → Py.mem q (paths_processed st) = true)
   ∨ ∃ q, it !! "path" = Some q
       ∧ Py.mem q (paths_processed st) = false
       ∧ paths_processed st' = (paths_processed st ++ [q])%list
       ∧ rotations items p (trace st') =
           rotations items p (trace st) + (if Py.eq q p then 1 else 0)).
Proof.
  intros Hidx Hcur Hpaths Htrace.
  assert (cur st2 !! "path" = it !! "path") as Hpath.
  { rewrite Hcur. apply apply_defaults_other; by destruct (debug a). }
  assert ((bind (rotate w idx) (λ _, ret tt) st2).2 = (rotate w idx st2).2) as ->.
  { unfold bind. by destruct (rotate w idx st2) as [[[]| |] ?]. }
  destruct (it !! "path") as [q|] eqn:Hq.
  - destruct (rotate_effect w idx items p it st2 Hidx) as [_ Heff].
    { by rewrite Hpath. }
    { rewrite Hcur. apply conf_rotation_emitted. by eexists. }
    rewrite Hq in Heff.
    destruct Heff as [[[Hk1 Hk2] Hmem]|(q' & Hq' & Hmem & Hpp & Hrr)].
    + left. split; [split; congruence|]. intros q0 Hq0. rewrite <- Hpaths. by apply Hmem.
    + right. exists q'. rewrite <- Hpaths, <- Htrace. done.
  - left. unfold rotate. rewrite (bind_raised _ _ _ st2) by (apply getitem_none; congruence).
    split; [by split|done].
Qed.

Lemma caught_paths r : paths_processed (caught r).2 = paths_processed r.2.
Proof. by destruct r as [[[]| |] ?]. Qed.

Lemma caught_trace r : trace (caught r).2 = trace r.2.
Proof. by destruct r as [[[]| |] ?]. Qed.

Lemma caught_next r : (caught r).1 = Next tt.
Proof. by destruct r as [[[]| |] ?]. Qed.

Lemma pass_effect a w idx (items : list item) p it st :
  is_rotation (run_mode a) = true →
  items !! idx = Some it →
  let st' := (item_pass a w idx it st).2 in
  (prelude_kept items p st st'
     ∧ (selected a it = Some true → is_Some (it !! "number") →
        check_passes w idx it = true →
        ∀ q, it !! "path" = Some q → Py.mem q (paths_processed st) = true)
   ∨ ∃ q, it !! "path" = Some q
       ∧ Py.mem q (paths_processed st) = false
       ∧ paths_processed st' = (paths_processed st ++ [q])%list
       ∧ rotations items p (trace st') =
           rotations items p (trace st) + (if Py.eq q p then 1 else 0)).
Proof.
  intros Hrot Hidx. unfold item_pass, prelude_kept.
  destruct (selected a it) as [[]|]; [|by left..].
  rewrite caught_paths, caught_trace.
  rewrite item_body_rotation by done. unfold check_passes.
  destruct (it !! "number") as [number|];
    [|left; split; [done|by intros _ []]].
  set (st1 := set_cur (apply_defaults (debug a) it) st).
  pose proof (λ st2, rotate_tail_effect a w idx items p it st st2 Hidx) as Htail.
  unfold prelude_kept in Htail.
  destruct (it !! "before_backup_check") as [cmd|]; cbv zeta.
  - destruct (answer w idx BeforeBackupCheck) as [rc out|].
    + destruct (rc =? 0)%Z.
      * destruct (Htail (set_trace (trace st ++ [(idx, BeforeBackupCheck)]) st1))
          as [[Hk Hmem]|Hb]; [done|done| |left|by right].
        { cbn [trace set_trace]. by rewrite rotations_snoc, rotates_other. }
        split; [done|]. intros _ _ _. apply Hmem.
      * left. split; [|by intros _ _ ?].
        split; [done|]. cbn [snd trace set_trace set_errors].
        by rewrite rotations_snoc, rotates_other.
    + left. split; [|by intros _ _ ?].
      split; [done|]. cbn [snd trace set_trace set_errors].
      by rewrite rotations_snoc, rotates_other.
  - destruct (Htail st1) as [[Hk Hmem]|Hb]; [done|done|done|left|by right].
    split; [done|]. intros _ _ _. apply Hmem.
Qed.

Lemma py_eq_refl x : Py.eq x x = true.
Proof. unfold Py.eq. by rewrite bool_decide_eq_true. Qed.

Lemma pass_rotated_once a w idx (items : list item) it st :
  is_rotation (run_mode a) = true →
  items !! idx = Some it →
  rotated_once items st →
  let st' := (item_pass a w idx it st).2 in
  rotated_once items st'
  ∧ (∀ x, Py.mem x (paths_processed st) = true → Py.mem x (paths_processed st') = true)
  ∧ (reaches_rotation a w idx it →
     ∀ q, it !! "path" = Some q → Py.mem q (paths_processed st') = true).
Proof.
  intros Hrot Hidx Hinv st'. split_and!.
  - intros p.
    destruct (pass_effect a w idx items p it st Hrot Hidx)
      as [[[Hp Hr] _]|(q & Hq & Hmem & Hp & Hr)]; fold st' in Hp, Hr; rewrite Hr, Hp, Hinv.
    + done.
    + rewrite py_mem_snoc, (py_eq_sym p q).
      destruct (Py.eq q p) eqn:Heq.
      * rewrite <- (py_mem_eq q p) by done. rewrite Hmem. done.
      * rewrite orb_false_r. destruct (Py.mem p _); lia.
  - intros x Hx.
    destruct (pass_effect a w idx items x it st Hrot Hidx)
      as [[[Hp _] _]|(q & _ & _ & Hp & _)]; fold st' in Hp; rewrite Hp; [done|].
    by rewrite py_mem_snoc, Hx.
  - intros (Hsel & Hnum & Hcheck) q Hq.
    destruct (pass_effect a w idx items q it st Hrot Hidx)
      as [[[Hp _] Hmem]|(q' & Hq' & _ & Hp & _)]; fold st' in Hp; rewrite Hp.
    + by apply Hmem.
    + rewrite py_mem_snoc. simplify_eq. by rewrite py_eq_refl, orb_true_r.
Qed.

Lemma loop_rotated_once a w (items : list item) rest idx st :
  is_rotation (run_mode a) = true →
  (∀ i it, rest !! i = Some it → items !! (idx + i) = Some it) →
  rotated_once items st →
  let r := loop a w idx rest st in
  rotated_once items r.2
  ∧ (∀ x, Py.mem x (paths_processed st) = true → Py.mem x (paths_processed r.2) = true)
  ∧ (r.1 = Next tt →
     ∀ i it q, rest !! i = Some it → reaches_rotation a w (idx + i) it →
               it !! "path" = Some q → Py.mem q (paths_processed r.2) = true).
Proof.
  intros Hrot. revert idx st.
  induction rest as [|it rest IH]; intros idx st Hitems Hinv; cbn [loop].
  { split_and!; [done|done|]. intros _ i it q Hi. by rewrite lookup_nil in Hi. }
  assert (items !! idx = Some it) as Hidx.
  { rewrite <- (Nat.add_0_r idx). by apply Hitems. }
  destruct (pass_rotated_once a w idx items it st Hrot Hidx Hinv) as (Hinv' & Hmono & Hreach).
  destruct (item_pass a w idx it st) as [[[]| |] st'] eqn:Hpass; cbn [fst snd] in *;
    [|split_and!; [done|done|by intros ?]..].
  destruct (IH (S idx) st') as (Hinv'' & Hmono' & Hreach'); [|done|].
  { intros i it' Hi. rewrite Nat.add_succ_l, <- Nat.add_succ_r. by apply Hitems. }
  split_and!; [done|by auto|].
  intros Hnext [|i] it' q Hi Hr Hq.
  - simplify_eq/=. rewrite Nat.add_0_r in Hr. apply Hmono'. by eapply Hreach.
  - cbn in Hi. rewrite Nat.add_succ_r, <- Nat.add_succ_l in Hr. by eapply Hreach'.
Qed.

(** C3 (amended): in a rotation mode the rotation tool is run at most once
    for a path, however many items share it; and it is run exactly once
    when the loop comes to its end and one enabled, unfiltered item with
    that path and a [number] has no [before_backup_check] or passes it. *)
Theorem rotation_once_per_path a w (items : list item) p :
  is_rotation (run_mode a) = true →
  let r := loop a w 0 items initial in
  rotations items p (trace r.2) ≤ 1
  ∧ (r.1 = Next tt →
     (∃ i it, items !! i = Some it ∧ path_is p it = true ∧ reaches_rotation a w i it) →
     rotations items p (trace r.2) = 1).
Proof.
  intros Hrot r.
  destruct (loop_rotated_once a w items items 0 initial Hrot) as (Hinv & _ & Hreach);
    [done|done|].
  fold r in Hinv, Hreach. split.
  - rewrite Hinv. destruct (Py.mem p _); lia.
  - intros Hnext (i & it & Hi & Hp & Hr). rewrite Hinv.
    unfold path_is in Hp. destruct (it !! "path") as [q|] eqn:Hq; [|done].
    rewrite <- (py_mem_eq q p) by done.
    by rewrite (Hreach Hnext i it q Hi Hr Hq).
Qed.

(** ** The loop *)

Lemma loop_completes a w idx (items : list item) st :
  Forall (λ it, is_Some (selected a it)) items →
  (loop a w idx items st).1 = Next tt.
Proof.
  intros Hall. revert idx st.
  induction Hall as [|it rest [b Hsel] _ IH]; intros idx st; [done|].
  cbn [loop]. unfold item_pass. rewrite Hsel.
  destruct b.
  - pose proof (caught_next (item_body a w idx (set_cur it st))) as Hnext.
    destruct (caught _) as [o st']. cbn [fst] in Hnext. subst o. apply IH.
  - apply IH.
Qed.



(** ** Exit code *)

(** C2: the exit code is 0 when the configuration is not enabled (and then
    nothing is processed) and when the loop ends with no error counted; it
    is 1 when the loop ends with errors counted, when the lock is held by
    another run, and when the configuration cannot be loaded, lacks
    [enabled] or [items], or the loop is left by an exception. *)
Theorem exit_code_of_run a w yaml_loaded lk :
  let r := main a w yaml_loaded lk in
  (∀ cfg enabled,
     yaml_loaded = Some cfg → cfg_enabled cfg = Some enabled →
     Py.eq enabled (VBool true) = false →
     exit_code r = 0%Z ∧ final r = initial)
  ∧ (∀ cfg enabled items o st,
       yaml_loaded = Some cfg → cfg_enabled cfg = Some enabled →
       Py.eq enabled (VBool true) = true → lk = LockFree →
       cfg_items cfg = Some items → loop a w 0 items initial = (o, st) →
       final r = st
       ∧ (o = Next tt → errors st = 0 → exit_code r = 0%Z)
       ∧ (0 < errors st → exit_code r = 1%Z)
       ∧ (o ≠ Next tt → exit_code r = 1%Z))
  ∧ (∀ cfg enabled,
       yaml_loaded = Some cfg → cfg_enabled cfg = Some enabled →
       Py.eq enabled (VBool true) = true → lk = LockOther →
       exit_code r = 1%Z ∧ final r = initial ∧ lock_after r = LockOther)
  ∧ (yaml_loaded = None
     ∨ (∃ cfg, yaml_loaded = Some cfg
          ∧ (cfg_enabled cfg = None
             ∨ ∃ enabled, cfg_enabled cfg = Some enabled
                 ∧ Py.eq enabled (VBool true) = true ∧ cfg_items cfg = None)) →
     exit_code r = 1%Z).
Proof.
  intros r. subst r. unfold main. split_and!.
  - intros cfg enabled -> -> ->. done.
  - intros cfg enabled items o st -> -> -> -> -> ->. cbn.
    split_and!; [done| | |].
    + intros -> ->. done.
    + intros Herr. destruct o as [[]| |]; [|done..].
      by rewrite bool_decide_eq_true_2.
    + intros Ho. by destruct o as [[]| |].
  - intros cfg enabled -> -> -> ->. done.
  - intros [->|(cfg & -> & [->|(enabled & -> & -> & ->)])]; [done|done|].
    cbn. by destruct lk.
Qed.

(** ** Stripping *)

Lemma lstrip_spaces l s : all_space l = true → Py.lstrip (l +:+ s) = Py.lstrip s.
Proof.
  induction l as [|c l IH]; [done|]. cbn [all_space]. intros [Hc Hl]%andb_true_iff.
  change (String c l +:+ s) with (String c (l +:+ s)). cbn [Py.lstrip]. rewrite Hc. auto.
Qed.

Lemma lstrip_clean s : starts_clean s = true → Py.lstrip s = s.
Proof.
  destruct s as [|c s]; [done|]. cbn [starts_clean Py.lstrip].
  intros Hc%negb_true_iff. by rewrite Hc.
Qed.

Lemma rstrip_all_space r : all_space r = true → Py.rstrip r = "".
Proof.
  induction r as [|c r IH]; [done|]. cbn [all_space Py.rstrip].
  intros [Hc Hr]%andb_true_iff. by rewrite IH, Hc.
Qed.

Lemma rstrip_spaces s r : all_space r = true → Py.rstrip (s +:+ r) = Py.rstrip s.
Proof.
  intros Hr. induction s as [|c s IH]; [by apply rstrip_all_space|].
  change (String c s +:+ r) with (String c (s +:+ r)). cbn [Py.rstrip]. by rewrite IH.
Qed.

Lemma rstrip_clean s : ends_clean s = true → Py.rstrip s = s.
Proof.
  induction s as [|c s IH]; [done|]. cbn [ends_clean Py.rstrip].
  destruct s as [|c' s].
  - intros Hc%negb_true_iff. cbn. by rewrite Hc.
  - intros Hs. by rewrite (IH Hs).
Qed.

(** Leading and trailing whitespace goes, the text between stays. *)
Lemma strip_spec l s r :
  all_space l = true → all_space r = true →
  starts_clean s = true → ends_clean s = true →
  Py.rstrip (Py.lstrip (l +:+ s +:+ r)) = s.
Proof.
  intros Hl Hr Hs He. rewrite lstrip_spaces by done.
  destruct s as [|c s].
  - change ("" +:+ r) with r.
    assert (Py.lstrip r = "") as ->; [|done].
    clear -Hr. induction r as [|c r IH]; [done|]. cbn [all_space] in Hr.
    apply andb_true_iff in Hr as [Hc Hr]. cbn [Py.lstrip]. rewrite Hc. auto.
  - rewrite lstrip_clean by done. rewrite rstrip_spaces by done. by apply rstrip_clean.
Qed.

(** ** Hostname validation *)

Lemma run_cmd_pipe_eq w idx s st :
  run_cmd_pipe w idx s st =
  match answer w idx s with
  | Exit retcode stdout => (Next (retcode, stdout), set_trace (trace st ++ [(idx, s)]) st)
  | Fault => (Raised, set_trace (trace st ++ [(idx, s)]) st)
  end.
Proof. unfold run_cmd_pipe. by destruct (answer w idx s). Qed.

Lemma validate_hostname_eq w idx st :
  validate_hostname w idx st =
  match cur st !! "validate_hostname" with
  | None => (Raised, st)
  | Some _ =>
      let st1 := set_trace (trace st ++ [(idx, HostnameQuery)]) st in
      match answer w idx HostnameQuery with
      | Fault => (Raised, st1)
      | Exit retcode stdout =>
          if (retcode =? 0)%Z then
            match cur st !! "host" with
            | None => (Raised, st1)
            | Some h =>
                if Py.eq (VStr (Py.rstrip (Py.lstrip stdout))) h then (Next tt, st1)
                else (Continue, set_errors (S (errors st)) st1)
            end
          else (Continue, set_errors (S (errors st)) st1)
      end
  end.
Proof.
  unfold validate_hostname.
  destruct (cur st !! "validate_hostname") as [flag|] eqn:Hflag;
    [|by rewrite (bind_raised _ _ _ st) by (by apply getitem_none)].
  rewrite (bind_next _ _ _ flag st) by (by apply getitem_some).
  unfold bind at 1. rewrite run_cmd_pipe_eq.
  destruct (answer w idx HostnameQuery) as [rc out|]; [|done].
  destruct (rc =? 0)%Z; [|done].
  unfold bind at 1, getitem. cbn [cur set_trace].
  destruct (cur st !! "host") as [h|]; [|done].
  by destruct (Py.eq _ h).
Qed.

(** C6: the output of the remote [hostname] is compared with the [host] of
    the item after leading and trailing whitespace is stripped, whatever
    the host and the output are: the validation passes, and the pass goes
    on, exactly when the command returns 0 and the stripped output equals
    the host; otherwise the error counter goes up by one and nothing that
    follows in the pass is run.  For a host that is a text the comparison
    is the equality of texts, and stripping takes the whitespace off both
    ends and nothing else: with host db1 the output " db1 \n" passes and
    the output db2 fails. *)
Theorem hostname_validation_strips w idx st flag h rc stdout :
  cur st !! "validate_hostname" = Some flag →
  cur st !! "host" = Some h →
  answer w idx HostnameQuery = Exit rc stdout →
  let st1 := set_trace (trace st ++ [(idx, HostnameQuery)]) st in
  let received := Py.rstrip (Py.lstrip stdout) in
  let passes := (rc =? 0)%Z && Py.eq (VStr received) h in
  validate_hostname w idx st
  = (if passes then (Next tt, st1) else (Continue, set_errors (S (errors st)) st1))
  ∧ (passes = false →
     ∀ rest : M unit,
       bind (validate_hostname w idx) (λ _, rest) st
       = (Continue, set_errors (S (errors st)) st1))
  ∧ (∀ expected, h = VStr expected →
       Py.eq (VStr received) h = bool_decide (received = expected))
  ∧ (∀ l s r, all_space l = true → all_space r = true →
       starts_clean s = true → ends_clean s = true →
       stdout = l +:+ s +:+ r → received = s).
Proof.
  intros Hflag Hhost Hans st1 received passes.
  assert (validate_hostname w idx st
          = (if passes then (Next tt, st1)
             else (Continue, set_errors (S (errors st)) st1))) as Hv.
  { rewrite validate_hostname_eq, Hflag, Hans, Hhost. cbv zeta.
    subst passes received. destruct (rc =? 0)%Z; [|done].
    by destruct (Py.eq _ h). }
  split_and!; [done| | |].
  - intros Hfail rest. apply bind_continue. by rewrite Hv, Hfail.
  - intros expected ->. unfold Py.eq. cbn [Py.key]. apply bool_decide_ext.
    split; [by intros [= ->]|by intros ->].
  - intros l s r Hl Hr Hs He ->. by apply strip_spec.
Qed.

(** C5, at an input where the code departs from it: the item asks for no
    hostname validation, the remote host answers db2 where db1 is
    expected; the hostname is queried and compared all the same, and the
    item is skipped with one error before any configuration is written. *)
Theorem hostname_compared_though_not_requested :
  let it := <["validate_hostname" := VBool false]> (item_ssh 1 "/backup/db1") in
  let r := item_pass args_sync world_db2 0 it initial in
  cur r.2 !! "validate_hostname" = Some (VBool false)
  ∧ trace r.2 = [(0, SshCheck); (0, HostnameQuery)]
  ∧ errors r.2 = 1
  ∧ conf_file r.2 = None.
Proof. vm_compute. done. Qed.

(** C4, at an input where the code departs from it: the check for the
    remote [.backup] file fails, the pass ends by [continue], and the
    credentials file is still there, with the password, when the run ends. *)
Theorem credentials_left_when_txt_check_fails :
  let r := main args_sync world_txt_fails
             (Some {| cfg_enabled := Some (VBool true); cfg_items := Some [item_native] |})
             LockFree in
  passwd_file (final r) = Some {| pw_text := "secret"; pw_0600 := true |}
  ∧ trace (final r) = [(0, NativeTxtCheck)]
  ∧ exit_code r = 1%Z.
Proof. vm_compute. done. Qed.

(** C3 as stated fails: two enabled, unfiltered items share a path, the
    precondition check of both fails, and the path is not rotated. *)
Lemma rotation_not_run_when_checks_fail :
  let it1 := <["before_backup_check" := VStr "test -d /mnt/a"]> (item_ssh 1 "/backup/a") in
  let it2 := <["before_backup_check" := VStr "test -d /mnt/a"]> (item_ssh 2 "/backup/a") in
  let r := loop args_daily world_check_fails 0 [it1; it2] initial in
  selected args_daily it1 = Some true
  ∧ selected args_daily it2 = Some true
  ∧ it1 !! "path" = it2 !! "path"
  ∧ rotations [it1; it2] (VStr "/backup/a") (trace r.2) ≠ 1.
Proof. vm_compute. split_and!; done. Qed.

Lemma rotation_once_per_path_witness :
  let items := [item_ssh 1 "/backup/a"; item_ssh 2 "/backup/b"; item_ssh 3 "/backup/a"] in
  rotations items (VStr "/backup/a")
    (trace (loop args_daily (world_with (λ _, None)) 0 items initial).2) = 1.
Proof.
  intros items.
  apply (rotation_once_per_path args_daily (world_with (λ _, None)) items (VStr "/backup/a")).
  - reflexivity.
  - vm_compute. reflexivity.
  - exists 2, (item_ssh 3 "/backup/a"). split_and!.
    + reflexivity.
    + vm_compute. reflexivity.
    + unfold reaches_rotation. split_and!.
      * vm_compute. reflexivity.
      * exists (VInt 3). vm_compute. reflexivity.
      * vm_compute. reflexivity.
Defined.

(** C10 as stated fails: with two colons in [connect] the port is the text
    between them, not all the text behind the first colon. *)
Lemma connect_port_two_colons :
  let it := <["connect" := VStr "10.0.0.1:2222:x"]> (item_ssh 1 "/backup/db1") in
  let it' := cur (item_pass args_sync world_db1 0 it initial).2 in
  Py.has_char ":" "10.0.0.1:2222:x" = true
  ∧ it' !! "connect_host" = Some (VStr "10.0.0.1")
  ∧ it' !! "connect_port" = Some (VStr "2222")
  ∧ it' !! "connect_port" ≠ Some (VStr (after_colon "10.0.0.1:2222:x")).
Proof. vm_compute. split_and!; done. Qed.

Lemma connect_host_and_port_witness :
  let st := set_cur (item_ssh 1 "/backup/db1") initial in
  let it' := cur (sync world_db1 0 st).2 in
  it' !! "connect_host" = Some (VStr "10.0.0.1")
  ∧ it' !! "connect_port" = Some (VInt 22).
Proof.
  intros st it'.
  destruct (connect_host_and_port world_db1 0 st "RSYNC_SSH" "10.0.0.1" 22%Z)
    as (Hhost & Hnone & _); [reflexivity..|].
  split; [exact Hhost|]. apply Hnone. reflexivity.
Defined.

(** The hourly line (the eighth line of the file) in the two cases of the
    specification: without [retain_hourly], and with [retain_hourly: 3]. *)
Example hourly_line_absent :
  line_of 7 (conf_rotation (apply_defaults false (item_ssh 1 "/backup/db1"))) =
  Some ("#retain" +:+ TAB +:+ TAB +:+ "hourly" +:+ TAB +:+ "NONE").
Proof. vm_compute. reflexivity. Qed.

Example hourly_line_three :
  line_of 7 (conf_rotation (apply_defaults false
               (<["retain_hourly" := VInt 3]> (item_ssh 1 "/backup/db1")))) =
  Some ("retain" +:+ TAB +:+ TAB +:+ "hourly" +:+ TAB +:+ "3").
Proof. vm_compute. reflexivity. Qed.



Lemma exit_code_of_run_witness :
  exit_code (main args_sync world_db2 (Some (config_of [item_ssh 1 "/backup/db1"])) LockFree) = 1%Z
  ∧ exit_code (main args_sync world_db1 (Some (config_of [item_ssh 1 "/backup/db1"])) LockFree) = 0%Z
  ∧ exit_code (main args_sync world_db1 (Some (config_of [item_ssh 1 "/backup/db1"])) LockOther) = 1%Z
  ∧ exit_code (main args_sync world_db1
                 (Some {| cfg_enabled := Some (VBool false); cfg_items := None |}) LockFree) = 0%Z
  ∧ exit_code (main args_sync world_db1 None LockFree) = 1%Z.
Proof.
  split_and!.
  - destruct (exit_code_of_run args_sync world_db2
                (Some (config_of [item_ssh 1 "/backup/db1"])) LockFree) as (_ & Hrun & _).
    destruct (Hrun (config_of [item_ssh 1 "/backup/db1"]) (VBool true)
                [item_ssh 1 "/backup/db1"] (Next tt)
                (loop args_sync world_db2 0 [item_ssh 1 "/backup/db1"] initial).2)
      as (_ & _ & Herr & _).
    + reflexivity.
    + reflexivity.
    + vm_compute. reflexivity.
    + reflexivity.
    + reflexivity.
    + vm_compute. reflexivity.
    + apply Herr. vm_compute. lia.
  - destruct (exit_code_of_run args_sync world_db1
                (Some (config_of [item_ssh 1 "/backup/db1"])) LockFree) as (_ & Hrun & _).
    destruct (Hrun (config_of [item_ssh 1 "/backup/db1"]) (VBool true)
                [item_ssh 1 "/backup/db1"] (Next tt)
                (loop args_sync world_db1 0 [item_ssh 1 "/backup/db1"] initial).2)
      as (_ & Hok & _ & _).
    + reflexivity.
    + reflexivity.
    + vm_compute. reflexivity.
    + reflexivity.
    + reflexivity.
    + vm_compute. reflexivity.
    + apply Hok; [reflexivity|]. vm_compute. reflexivity.
  - destruct (exit_code_of_run args_sync world_db1
                (Some (config_of [item_ssh 1 "/backup/db1"])) LockOther) as (_ & _ & Hlock & _).
    destruct (Hlock (config_of [item_ssh 1 "/backup/db1"]) (VBool true)) as [Hexit _].
    + reflexivity.
    + reflexivity.
    + vm_compute. reflexivity.
    + reflexivity.
    + exact Hexit.
  - destruct (exit_code_of_run args_sync world_db1
                (Some {| cfg_enabled := Some (VBool false); cfg_items := None |}) LockFree)
      as (Hoff & _).
    destruct (Hoff {| cfg_enabled := Some (VBool false); cfg_items := None |} (VBool false))
      as [Hexit _].
    + reflexivity.
    + reflexivity.
    + vm_compute. reflexivity.
    + exact Hexit.
  - destruct (exit_code_of_run args_sync world_db1 None LockFree) as (_ & _ & _ & Hfault).
    apply Hfault. left. reflexivity.
Defined.

Lemma hostname_validation_strips_witness :
  let st := set_cur (apply_defaults false (item_ssh 1 "/backup/db1")) initial in
  validate_hostname world_db1 0 st = (Next tt, set_trace [(0, HostnameQuery)] st)
  ∧ validate_hostname world_db2 0 st =
      (Continue, set_errors 1 (set_trace [(0, HostnameQuery)] st))
  ∧ Py.rstrip (Py.lstrip (" db1 " +:+ NL)) = "db1".
Proof.
  intros st. split_and!.
  - destruct (hostname_validation_strips world_db1 0 st (VBool true) (VStr "db1") 0%Z
                (" db1 " +:+ NL)) as (Hv & _).
    + vm_compute. reflexivity.
    + vm_compute. reflexivity.
    + vm_compute. reflexivity.
    + rewrite Hv. vm_compute. reflexivity.
  - destruct (hostname_validation_strips world_db2 0 st (VBool true) (VStr "db1") 0%Z
                "db2") as (Hv & _).
    + vm_compute. reflexivity.
    + vm_compute. reflexivity.
    + vm_compute. reflexivity.
    + rewrite Hv. vm_compute. reflexivity.
  - destruct (hostname_validation_strips world_db1 0 st (VBool true) (VStr "db1") 0%Z
                (" db1 " +:+ NL)) as (_ & _ & _ & Hstrip).
    + vm_compute. reflexivity.
    + vm_compute. reflexivity.
    + vm_compute. reflexivity.
    + apply (Hstrip " " "db1" (" " +:+ NL)); reflexivity.
Defined.

(** The end-to-end case of the specification: three items, the
    precondition check of the second one fails; the first and the third
    are synchronised, one error is counted, the exit code is 1. *)
Example three_items_second_check_fails :
  let w := {| SELF_HOSTNAME := "backup1";
              answer := λ idx s,
                match s with
                | HostnameQuery => Exit 0 "db1"
                | BeforeBackupCheck => Exit 1 ""
                | _ => Exit 0 ""
                end |} in
  let items := [ item_ssh 1 "/backup/a";
                 <["before_backup_check" := VStr "test -d /mnt"]> (item_ssh 2 "/backup/b");
                 item_ssh 3 "/backup/c" ] in
  let r := main args_sync w (Some (config_of items)) LockFree in
  exit_code r = 1%Z
  ∧ errors (final r) = 1
  ∧ trace (final r) =
      [ (0, SshCheck); (0, HostnameQuery); (0, RsnapshotSync);
        (1, BeforeBackupCheck);
        (2, SshCheck); (2, HostnameQuery); (2, RsnapshotSync) ]
  ∧ lock_after r = LockFree.
Proof. vm_compute. split_and!; reflexivity. Qed.

(** The value of [validate_hostname] changes nothing in what the
    validation does: the hostname is queried and compared all the same. *)
Lemma validate_hostname_ignores_flag w idx (it : item) st v v' :
  let run flag :=
    validate_hostname w idx (set_cur (<["validate_hostname" := flag]> it) st) in
  (run v).1 = (run v').1
  ∧ errors (run v).2 = errors (run v').2
  ∧ trace (run v).2 = trace (run v').2.
Proof.
  intros run. subst run. cbv beta. rewrite !validate_hostname_eq. cbn [cur set_cur].
  rewrite !lookup_insert_eq, !lookup_insert_ne by done. cbv zeta.
  destruct (answer w idx HostnameQuery) as [rc out|]; [|done].
  destruct (rc =? 0)%Z; [|done].
  destruct (it !! "host") as [h|]; [|done].
  by destruct (Py.eq _ h).
Qed.

(** When the checks pass, the credentials file is gone at the end of the
    pass of a native item, whatever the tool returns. *)
Example credentials_removed_after_sync :
  let w := world_with (λ s, match s with RsnapshotSync => Some (Exit 1 "") | _ => None end) in
  let r := item_pass args_sync w 0 item_native initial in
  passwd_file r.2 = None
  ∧ trace r.2 = [(0, NativeTxtCheck); (0, RsnapshotSync)]
  ∧ errors r.2 = 1.
Proof. vm_compute. split_and!; reflexivity. Qed.

(** * Further properties *)

(** ** Defaults: what they leave alone *)

Lemma assoc_default_table k :
  is_Some (assoc k default_table) ↔ k ∈ defaulted_keys.
Proof.
  unfold defaulted_keys. rewrite !elem_of_cons, elem_of_nil. split.
  - unfold assoc, default_table. cbn [List.find fst snd].
    repeat match goal with
           | |- context [String.eqb ?x k] =>
               destruct (String.eqb_spec x k) as [<-|_];
               [intros _; repeat first [by left | right]|]
           end.
    intros [? H]. discriminate H.
  - intros H. repeat (destruct H as [->|H]; [by eexists|]). done.
Qed.

Lemma assoc_verbosity_table d k :
  is_Some (assoc k (verbosity_table d)) ↔ k ∈ verbosity_keys.
Proof.
  unfold verbosity_keys. rewrite !elem_of_cons, elem_of_nil. split.
  - unfold assoc, verbosity_table.
    destruct d; cbn [List.find fst snd];
      (repeat match goal with
              | |- context [String.eqb ?x k] =>
                  destruct (String.eqb_spec x k) as [<-|_];
                  [intros _; repeat first [by left | right]|]
              end);
      intros [? H]; discriminate H.
  - intros [->|[->|[]]]; destruct d; by eexists.
Qed.

Lemma default_kept d (it : item) k :
  k ∉ defaulted_keys → k ∉ verbosity_keys → apply_defaults d it !! k = it !! k.
Proof.
  intros Hk1 Hk2. apply apply_defaults_other.
  - rewrite eq_None_not_Some. by rewrite assoc_verbosity_table.
  - rewrite eq_None_not_Some. by rewrite assoc_default_table.
Qed.

(** X1: the defaults touch the defaulted and the verbosity keys only: every
    other key of the item is as it was, present or not.  The keys of the
    item after the defaults are its keys and those; the [--debug] flag
    shows in the two verbosity keys only. *)
Theorem defaults_frame (it : item) :
  (∀ d k, k ∉ defaulted_keys → k ∉ verbosity_keys →
          apply_defaults d it !! k = it !! k)
  ∧ (∀ d, dom (apply_defaults d it) =
          dom it ∪ list_to_set (defaulted_keys ++ verbosity_keys))
  ∧ (∀ k, k ∉ verbosity_keys → apply_defaults true it !! k = apply_defaults false it !! k).
Proof.
  assert (∀ d k, k ∉ verbosity_keys → assoc k (verbosity_table d) = None) as Hnone.
  { intros d k Hk. apply eq_None_not_Some. by rewrite assoc_verbosity_table. }
  split_and!.
  - intros d k. apply default_kept.
  - intros d. apply set_eq. intros k.
    rewrite elem_of_union, elem_of_list_to_set, elem_of_app, !elem_of_dom.
    rewrite <- assoc_default_table, <- (assoc_verbosity_table d), apply_defaults_lookup.
    destruct (assoc k (verbosity_table d)) as [v|].
    + split; [intros _; right; right; by eexists|by eexists].
    + destruct (it !! k) as [v|].
      * split; [intros _; left; by eexists|by eexists].
      * split; [by right; left|]. intros [[? ?]|[?|[? ?]]]; done.
  - intros k Hk. rewrite !apply_defaults_lookup, !Hnone; done.
Qed.

(** ** The console text of [log_and_print] *)

Lemma str_prefix_cons p c s :
  String.prefix (String c p) (String c s) = String.prefix p s.
Proof. cbn [String.prefix]. by destruct (ascii_dec c c). Qed.

Lemma str_prefix_cons_ne p a c s :
  a ≠ c → String.prefix (String a p) (String c s) = false.
Proof. intros Hne. cbn [String.prefix]. by destruct (ascii_dec a c). Qed.

Lemma text_safe_cons c s1 :
  text_safe (String c s1) =
  if String.prefix "False" (String c s1) then "F_alse" +:+ text_safe (skip 4 s1)
  else String c (text_safe s1).
Proof.
  destruct s1 as [|c2 [|c3 [|c4 [|c5 rest]]]]; cbn [text_safe skip]; try reflexivity.
  all: destruct (String.prefix "False" _) eqn:Hp; [|reflexivity].
  all: exfalso; revert Hp; cbn [String.prefix]; repeat destruct (ascii_dec _ _); done.
Qed.

Lemma skip_length n s : String.length (skip n s) ≤ String.length s.
Proof.
  revert s. induction n as [|n IH]; intros [|c s]; cbn [skip String.length]; try lia.
  specialize (IH s). lia.
Qed.

(** The replacement leaves a beginning alone that has no F in it. *)
Lemma text_safe_prefix p s :
  lacks "F" p = true → String.prefix p (text_safe s) = String.prefix p s.
Proof.
  unfold lacks. revert s. induction p as [|a p IH]; intros s Hp; [by destruct (text_safe s), s|].
  cbn [Py.has_char] in Hp. destruct (Ascii.eqb_spec a "F") as [->|Ha]; [done|].
  destruct s as [|c s1]; [done|]. rewrite text_safe_cons.
  destruct (String.prefix "False" (String c s1)) eqn:Hfalse.
  - assert (c = "F"%char) as ->.
    { revert Hfalse. cbn [String.prefix]. by destruct (ascii_dec "F" c). }
    change ("F_alse" +:+ ?t) with (String "F" ("_alse" +:+ t)).
    by rewrite !str_prefix_cons_ne.
  - destruct (decide (a = c)) as [->|Hac]; [|by rewrite !str_prefix_cons_ne].
    rewrite !str_prefix_cons. by apply IH.
Qed.

Lemma text_safe_no_prefix s : String.prefix "False" (text_safe s) = false.
Proof.
  destruct s as [|c s1]; [done|]. rewrite text_safe_cons.
  destruct (String.prefix "False" (String c s1)) eqn:Hfalse; [done|].
  destruct (decide ("F"%char = c)) as [<-|Hc]; [|by rewrite str_prefix_cons_ne].
  rewrite str_prefix_cons in Hfalse |- *. by rewrite text_safe_prefix.
Qed.

Lemma text_safe_no_False_bounded n s :
  String.length s ≤ n → Py.infix "False" (text_safe s) = false.
Proof.
  revert s. induction n as [|n IH]; intros s Hn.
  { destruct s; [reflexivity|cbn in Hn; lia]. }
  destruct s as [|c s1]; [reflexivity|]. cbn [String.length] in Hn.
  pose proof (text_safe_no_prefix (String c s1)) as Hnp. revert Hnp.
  rewrite text_safe_cons.
  destruct (String.prefix "False" (String c s1)) eqn:Hfalse.
  - intros _.
    change ("F_alse" +:+ ?t) with
      (String "F" (String "_" (String "a" (String "l" (String "s" (String "e" t)))))).
    cbn [Py.infix]. rewrite str_prefix_cons, (str_prefix_cons_ne "lse" "a" "_") by done.
    rewrite !str_prefix_cons_ne by done. cbn [orb].
    apply IH. pose proof (skip_length 4 s1). lia.
  - intros Hnp. cbn [Py.infix]. rewrite Hnp. cbn [orb]. apply IH. lia.
Qed.

Lemma text_safe_id_bounded n s :
  String.length s ≤ n → Py.infix "False" s = false → text_safe s = s.
Proof.
  revert s. induction n as [|n IH]; intros s Hn Hs.
  { destruct s; [done|cbn in Hn; lia]. }
  destruct s as [|c s1]; [done|]. cbn [String.length] in Hn.
  cbn [Py.infix] in Hs. apply orb_false_iff in Hs as [Hp Hs].
  rewrite text_safe_cons, Hp. f_equal. apply IH; [lia|done].
Qed.

(** X2: the text that goes to the console never has the word False in it; a
    text without that word goes out as it is. *)
Theorem text_safe_no_False s :
  Py.infix "False" (text_safe s) = false
  ∧ (Py.infix "False" s = false → text_safe s = s).
Proof.
  split.
  - by apply (text_safe_no_False_bounded (String.length s)).
  - by apply (text_safe_id_bounded (String.length s)).
Qed.

Lemma text_safe_no_False_witness :
  text_safe "retcode 0, changed: False" = "retcode 0, changed: F_alse"
  ∧ text_safe "Rsnapshot succeeded" = "Rsnapshot succeeded".
Proof.
  split; [vm_compute; reflexivity|].
  apply (text_safe_no_False "Rsnapshot succeeded"). vm_compute. reflexivity.
Defined.

(** ** Invariants of a whole pass *)

Section Passes.

Variable a : args.
Variable w : world.
Variable idx : nat.
Variable I : run_state → Prop.
Variable quiet : site → bool.

Hypothesis I_errors : ∀ n st, I st → I (set_errors n st).
Hypothesis I_conf : ∀ c st, I st → I (set_conf c st).
Hypothesis I_passwd : ∀ f st, I st → I (set_passwd f st).
Hypothesis I_trace :
  ∀ s st, quiet s = true → I st → I (set_trace (trace st ++ [(idx, s)]) st).
Hypothesis I_cur : ∀ it st, I st → I (set_cur it st).
Hypothesis I_paths : ∀ l st, I st → I (set_paths l st).

Lemma preserves_setitem k v : preserves I (setitem k v).
Proof. intros st HI. by apply I_cur. Qed.

Lemma preserves_default_item : preserves I (default_item a).
Proof. intros st HI. by apply I_cur. Qed.

Lemma preserves_derive_connect dflt : preserves I (derive_connect dflt).
Proof.
  assert (∀ v v', preserves I (setitem "connect_host" v ;; setitem "connect_port" v'))
    as Hset.
  { intros v v'. apply preserves_bind; [|intros _]; apply preserves_setitem. }
  unfold derive_connect. apply preserves_bind; [apply preserves_getitem|].
  intros [| | |s|l]; try apply preserves_raise.
  - destruct (Py.has_char ":" s); [|apply Hset].
    destruct (Py.split ":" s) as [|h [|p ?]]; first [apply preserves_raise | apply Hset].
  - case_bool_decide; [apply preserves_raise|apply Hset].
Qed.

Lemma preserves_rotate :
  quiet RsnapshotRotate = true → preserves I (rotate w idx).
Proof.
  intros Hq. unfold rotate. apply preserves_bind; [apply preserves_getitem|].
  intros path st HI.
  destruct (Py.mem path (paths_processed st)); [done|].
  assert (I (set_paths (paths_processed st ++ [path]) st)) as HI' by by apply I_paths.
  revert HI'. generalize (set_paths (paths_processed st ++ [path]) st).
  apply preserves_bind; [by apply preserves_write_conf|].
  intros _. by apply (preserves_may_fail _ _ _ quiet).
Qed.

Lemma preserves_sync_ssh :
  (∀ s, s ≠ RsnapshotRotate → quiet s = true) → preserves I (sync_ssh w idx).
Proof.
  intros Hq. unfold sync_ssh.
  apply preserves_bind; [apply preserves_derive_connect|]. intros _.
  apply preserves_bind; [apply (preserves_check_ssh _ _ _ quiet); by auto|]. intros _.
  apply preserves_bind; [apply (preserves_validate_hostname _ _ _ quiet); by auto|].
  intros _.
  apply preserves_bind; [apply (preserves_hook _ _ _ quiet); by auto|]. intros _.
  apply preserves_bind; [apply (preserves_db_dump _ _ _ quiet); by auto|]. intros _.
  apply preserves_bind; [by apply preserves_save_conf_ssh|]. intros _.
  apply preserves_bind; [apply (preserves_may_fail _ _ _ quiet); by auto|]. intros _.
  apply (preserves_hook _ _ _ quiet); by auto.
Qed.

Lemma preserves_sync_native :
  (∀ s, s ≠ RsnapshotRotate → quiet s = true) → preserves I (sync_native w idx).
Proof.
  intros Hq. unfold sync_native.
  apply preserves_bind; [apply preserves_derive_connect|]. intros _.
  apply preserves_bind.
  { apply preserves_bind; [apply preserves_has_key|].
    intros []; [apply preserves_ret|].
    apply preserves_bind; [by apply preserves_count_error|].
    intros _. apply preserves_continue. }
  intros _.
  apply preserves_bind; [by apply preserves_write_passwd|]. intros _.
  apply preserves_bind; [apply (preserves_native_txt_check _ _ _ quiet); by auto|].
  intros _.
  apply preserves_bind; [by apply preserves_write_conf|]. intros _.
  apply preserves_bind; [apply (preserves_may_fail _ _ _ quiet); by auto|]. intros _.
  by apply preserves_remove_passwd.
Qed.

Lemma preserves_body_rotation :
  is_rotation (run_mode a) = true →
  quiet BeforeBackupCheck = true → quiet RsnapshotRotate = true →
  preserves I (item_body a w idx).
Proof.
  intros Hrot Hq1 Hq2. unfold item_body. rewrite Hrot.
  apply preserves_bind; [apply preserves_getitem|]. intros _.
  apply preserves_bind; [apply preserves_default_item|]. intros _.
  apply preserves_bind; [by apply (preserves_before_backup_check _ _ _ quiet)|].
  intros _.
  apply preserves_bind; [by apply preserves_rotate|]. intros _. apply preserves_ret.
Qed.

End Passes.

(** In a sync the rotated paths are not needed to be kept by [I]: the
    stages of a sync do not write them. *)
Section SyncPasses.

Variable a : args.
Variable w : world.
Variable idx : nat.
Variable I : run_state → Prop.
Variable quiet : site → bool.

Hypothesis I_errors : ∀ n st, I st → I (set_errors n st).
Hypothesis I_conf : ∀ c st, I st → I (set_conf c st).
Hypothesis I_passwd : ∀ f st, I st → I (set_passwd f st).
Hypothesis I_trace :
  ∀ s st, quiet s = true → I st → I (set_trace (trace st ++ [(idx, s)]) st).
Hypothesis I_cur : ∀ it st, I st → I (set_cur it st).
Hypothesis quiet_sync : ∀ s, s ≠ RsnapshotRotate → quiet s = true.

Lemma preserves_sync : preserves I (sync w idx).
Proof.
  unfold sync. apply preserves_bind; [apply preserves_getitem|]. intros ty.
  destruct (is_ssh_type ty); [|destruct (is_native_type ty)].
  - by apply (preserves_sync_ssh _ _ _ quiet).
  - by apply (preserves_sync_native _ _ _ quiet).
  - by apply preserves_count_error.
Qed.

Lemma preserves_body_sync :
  is_rotation (run_mode a) = false → preserves I (item_body a w idx).
Proof.
  intros Hrot. unfold item_body. rewrite Hrot.
  apply preserves_bind; [apply preserves_getitem|]. intros _.
  apply preserves_bind; [by apply preserves_default_item|]. intros _.
  apply preserves_bind; [apply (preserves_before_backup_check _ _ _ quiet); by auto|].
  intros _.
  apply preserves_bind; [apply preserves_ret|]. intros _. apply preserves_sync.
Qed.

End SyncPasses.

(** From the body to the pass: the filters change nothing, the [except]
    changes the error counter only. *)
Lemma pass_preserves a w idx (I : run_state → Prop) (it : item) st :
  (∀ n st, I st → I (set_errors n st)) →
  (∀ it st, I st → I (set_cur it st)) →
  preserves I (item_body a w idx) →
  I st → I (item_pass a w idx it st).2.
Proof.
  intros I_errors I_cur Hbody HI. unfold item_pass.
  destruct (selected a it) as [[]|]; [|done..].
  specialize (Hbody (set_cur it st) (I_cur _ _ HI)).
  destruct (item_body a w idx (set_cur it st)) as [[[]| |] st']; cbn in *; auto.
Qed.

Lemma loop_preserves a w (I : run_state → Prop) :
  (∀ idx it st, I st → I (item_pass a w idx it st).2) →
  ∀ items idx st, I st → I (loop a w idx items st).2.
Proof.
  intros Hpass items. induction items as [|it rest IH]; intros idx st HI; [done|].
  cbn [loop]. specialize (Hpass idx it st HI).
  destruct (item_pass a w idx it st) as [[[]| |] st']; cbn [snd] in *; auto.
Qed.

(** ** What each mode leaves alone *)

Lemma trace_since_refl st P : trace_since st st P.
Proof. exists []. by rewrite app_nil_r. Qed.

Lemma trace_since_snoc st0 st (P : nat * site → Prop) e :
  P e → trace_since st0 st P → trace_since st0 (set_trace (trace st ++ [e]) st) P.
Proof.
  intros He (new & Ht & Hnew). exists (new ++ [e])%list. cbn. rewrite Ht, app_assoc.
  split; [done|]. apply Forall_app. by split; [|apply Forall_singleton].
Qed.

Lemma rotation_pass_footprint a w idx (it : item) st0 st :
  is_rotation (run_mode a) = true →
  passwd_file st = passwd_file st0
  ∧ trace_since st0 st (λ e, rotation_site e.2 = true) →
  let st' := (item_pass a w idx it st).2 in
  passwd_file st' = passwd_file st0
  ∧ trace_since st0 st' (λ e, rotation_site e.2 = true).
Proof.
  intros Hrot HI.
  apply (pass_preserves a w idx
           (λ s, passwd_file s = passwd_file st0
                 ∧ trace_since st0 s (λ e, rotation_site e.2 = true))); [..|done].
  - by intros n s [? ?].
  - by intros i s [? ?].
  - apply (preserves_body_rotation a w idx _ rotation_site);
      try done; try (by intros ? ? [? ?]).
    intros q s Hq [? ?]. split; [done|]. by apply trace_since_snoc.
Qed.

Lemma sync_pass_footprint a w idx (it : item) st0 st :
  is_rotation (run_mode a) = false →
  paths_processed st = paths_processed st0
  ∧ trace_since st0 st (λ e, e.2 ≠ RsnapshotRotate) →
  let st' := (item_pass a w idx it st).2 in
  paths_processed st' = paths_processed st0
  ∧ trace_since st0 st' (λ e, e.2 ≠ RsnapshotRotate).
Proof.
  intros Hrot HI.
  apply (pass_preserves a w idx
           (λ s, paths_processed s = paths_processed st0
                 ∧ trace_since st0 s (λ e, e.2 ≠ RsnapshotRotate))); [..|done].
  - by intros n s [? ?].
  - by intros i s [? ?].
  - apply (preserves_body_sync a w idx _
             (λ q, bool_decide (q ≠ RsnapshotRotate)));
      try done; try (by intros ? ? [? ?]).
    + intros q s Hq [? ?]. split; [done|]. apply trace_since_snoc; [|done].
      by apply bool_decide_eq_true_1 in Hq.
    + intros q Hq. by apply bool_decide_eq_true_2.
Qed.

(** X3: a rotation run starts no command but the check of the item and the
    rotation, and never touches the credentials file; a sync run never
    starts a rotation and never records a rotated path. *)
Theorem modes_apart a w (items : list item) idx st :
  let st' := (loop a w idx items st).2 in
  if is_rotation (run_mode a) then
    passwd_file st' = passwd_file st
    ∧ trace_since st st' (λ e, rotation_site e.2 = true)
  else
    paths_processed st' = paths_processed st
    ∧ trace_since st st' (λ e, e.2 ≠ RsnapshotRotate).
Proof.
  intros st'. subst st'. destruct (is_rotation (run_mode a)) eqn:Hrot.
  - apply (loop_preserves a w
             (λ s, passwd_file s = passwd_file st
                   ∧ trace_since st s (λ e, rotation_site e.2 = true))).
    + intros i it s HI. by apply rotation_pass_footprint.
    + split; [done|apply trace_since_refl].
  - apply (loop_preserves a w
             (λ s, paths_processed s = paths_processed st
                   ∧ trace_since st s (λ e, e.2 ≠ RsnapshotRotate))).
    + intros i it s HI. by apply sync_pass_footprint.
    + split; [done|apply trace_since_refl].
Qed.

(** ** The order of the commands *)

Lemma pass_trace a w idx (it : item) st :
  let st' := (item_pass a w idx it st).2 in
  ∃ new, trace st' = (trace st ++ new)%list
         ∧ Forall (λ e, e.1 = idx) new
         ∧ (new ≠ [] → selected a it = Some true).
Proof.
  intros st'. subst st'.
  destruct (selected a it) as [[]|] eqn:Hsel; cycle 1.
  { exists []. unfold item_pass. rewrite Hsel, app_nil_r. done. }
  { exists []. unfold item_pass. rewrite Hsel, app_nil_r. done. }
  assert (trace_since st (item_pass a w idx it st).2 (λ e, e.1 = idx))
    as (new & Ht & Hnew); [|by exists new].
  apply (pass_preserves a w idx (λ s, trace_since st s (λ e, e.1 = idx)));
    [done|done| |apply trace_since_refl].
  destruct (is_rotation (run_mode a)) eqn:Hrot.
  - apply (preserves_body_rotation a w idx _ (λ _, true)); try done.
    intros q s _ ?. by apply trace_since_snoc.
  - apply (preserves_body_sync a w idx _ (λ _, true)); try done.
    intros q s _ ?. by apply trace_since_snoc.
Qed.

Lemma loop_trace a w (items : list item) :
  ∀ idx st,
    ∃ new, trace (loop a w idx items st).2 = (trace st ++ new)%list
           ∧ StronglySorted (λ e1 e2 : nat * site, e1.1 ≤ e2.1) new
           ∧ Forall (λ e, idx ≤ e.1
                          ∧ ∃ it, items !! (e.1 - idx) = Some it
                                  ∧ selected a it = Some true) new.
Proof.
  induction items as [|it rest IH]; intros idx st.
  { exists []. cbn. rewrite app_nil_r. split_and!; constructor. }
  destruct (pass_trace a w idx it st) as (new1 & Ht1 & Hidx & Hsel).
  assert (StronglySorted (λ e1 e2 : nat * site, e1.1 ≤ e2.1) new1) as Hsorted1.
  { clear Ht1 Hsel. induction new1 as [|e new1 IH1]; [constructor|].
    apply Forall_cons in Hidx as [He Hidx]. constructor; [by apply IH1|].
    eapply Forall_impl; [exact Hidx|]. intros e' He'. cbn in *. lia. }
  assert (Forall (λ e, idx ≤ e.1
                       ∧ ∃ it0, (it :: rest) !! (e.1 - idx) = Some it0
                                ∧ selected a it0 = Some true) new1) as Hnew1.
  { destruct new1 as [|e0 new0]; [constructor|].
    specialize (Hsel ltac:(done)).
    eapply Forall_impl; [exact Hidx|]. intros e He. cbn in He. rewrite He.
    split; [done|]. exists it. by rewrite Nat.sub_diag. }
  cbn [loop]. destruct (item_pass a w idx it st) as [[[]| |] st1]; cbn [snd] in *.
  2,3: exists new1; by rewrite Ht1.
  destruct (IH (S idx) st1) as (new2 & Ht2 & Hsorted2 & Hnew2).
  exists (new1 ++ new2)%list. rewrite Ht2, Ht1, app_assoc. split_and!; [done| |].
  - apply StronglySorted_app. split_and!; [|done|done].
    intros e1 e2 He1 He2.
    rewrite Forall_forall in Hidx. rewrite Forall_forall in Hnew2.
    specialize (Hidx _ He1). destruct (Hnew2 _ He2) as [? _]. cbn in *. lia.
  - apply Forall_app. split; [done|].
    eapply Forall_impl; [exact Hnew2|]. intros e (Hle & it0 & Hit0 & Hsel0).
    split; [lia|]. exists it0. split; [|done].
    replace (e.1 - idx) with (S (e.1 - S idx)) by lia. done.
Qed.

(** X4: commands are started for the items the filters select only, and item
    after item in the order of the configuration: the trace of a run is
    sorted by the position of the item, and each entry is of a selected
    item. *)
Theorem commands_by_item_in_order a w (items : list item) :
  let t := trace (loop a w 0 items initial).2 in
  StronglySorted (λ e1 e2 : nat * site, e1.1 ≤ e2.1) t
  ∧ Forall (λ e, ∃ it, items !! e.1 = Some it ∧ selected a it = Some true) t.
Proof.
  intros t. subst t.
  destruct (loop_trace a w items 0 initial) as (new & -> & Hsorted & Hnew).
  cbn. split; [done|].
  eapply Forall_impl; [exact Hnew|]. intros e (_ & it & Hit & Hsel).
  exists it. by rewrite Nat.sub_0_r in Hit.
Qed.

(** ** The rotated paths *)

Lemma distinct_snoc l q :
  distinct l = true → Py.mem q l = false → distinct (l ++ [q]) = true.
Proof.
  induction l as [|x l IH]; intros Hl Hq; [done|].
  cbn in *. apply andb_true_iff in Hl as [Hx Hl].
  apply orb_false_iff in Hq as [Hqx Hq].
  rewrite py_mem_snoc, IH by done. rewrite (py_eq_sym x q), Hqx.
  by rewrite orb_false_r, Hx.
Qed.

Lemma pass_paths a w idx (it : item) st :
  let st' := (item_pass a w idx it st).2 in
  paths_processed st' = paths_processed st
  ∨ ∃ q, it !! "path" = Some q
         ∧ Py.mem q (paths_processed st) = false
         ∧ paths_processed st' = (paths_processed st ++ [q])%list.
Proof.
  intros st'. subst st'. destruct (is_rotation (run_mode a)) eqn:Hrot.
  - destruct (pass_effect a w idx (replicate (S idx) it) VNone it st Hrot)
      as [[[Hkept _] _]|(q & Hq & Hmem & Hpaths & _)].
    + apply lookup_replicate_2. lia.
    + by left.
    + right. by exists q.
  - left. by apply (sync_pass_footprint a w idx it st st Hrot);
      [split; [done|apply trace_since_refl]].
Qed.

Lemma loop_paths a w (items : list item) :
  ∀ rest idx st,
    rest ⊆ items →
    distinct (paths_processed st) = true →
    Forall (λ q, ∃ it, it ∈ items ∧ it !! "path" = Some q) (paths_processed st) →
    let st' := (loop a w idx rest st).2 in
    distinct (paths_processed st') = true
    ∧ Forall (λ q, ∃ it, it ∈ items ∧ it !! "path" = Some q) (paths_processed st').
Proof.
  induction rest as [|it rest IH]; intros idx st Hsub Hd Hfrom; [done|].
  cbn [loop]. pose proof (pass_paths a w idx it st) as Hpass. cbn zeta in Hpass.
  assert (distinct (paths_processed (item_pass a w idx it st).2) = true
          ∧ Forall (λ q, ∃ it, it ∈ items ∧ it !! "path" = Some q)
              (paths_processed (item_pass a w idx it st).2)) as [Hd1 Hfrom1].
  { destruct Hpass as [->|(q & Hq & Hmem & ->)]; [done|].
    split; [by apply distinct_snoc|].
    apply Forall_app. split; [done|]. apply Forall_singleton. exists it.
    split; [|done]. apply Hsub. by left. }
  destruct (item_pass a w idx it st) as [[[]| |] st1]; cbn [snd] in *; [|done..].
  apply IH; [|done..]. intros x Hx. apply Hsub. by right.
Qed.

(** X5: the list of rotated paths never holds a path twice (by the comparison
    that the membership test of the code uses), and each of its entries is
    the [path] of an item of the configuration. *)
Theorem rotated_paths_distinct a w (items : list item) :
  let l := paths_processed (loop a w 0 items initial).2 in
  distinct l = true ∧ Forall (λ q, ∃ it, it ∈ items ∧ it !! "path" = Some q) l.
Proof.
  intros l. subst l. apply loop_paths; [done|done|constructor].
Qed.

(** ** The lock *)

(** X6: the lock file is left as it was found, on every way out: a run that
    finds it free has released it when it ends, with or without errors, and
    a run that finds it held by another run does not touch it.  Commands
    are started by a run that has taken the free lock only. *)
Theorem lock_left_as_found a w yaml_loaded lk :
  let r := main a w yaml_loaded lk in
  (lk ≠ LockOurs → lock_after r = lk)
  ∧ (trace (final r) ≠ [] → lk = LockFree).
Proof.
  intros r. subst r. unfold main.
  destruct yaml_loaded as [cfg|]; [|done].
  destruct (cfg_enabled cfg) as [enabled|]; [|done].
  destruct (negb (Py.eq enabled (VBool true))); [done|].
  destruct lk; [|done|done]. cbn [acquire].
  destruct (cfg_items cfg) as [items|]; [|done].
  by destruct (loop a w 0 items initial) as [o st].
Qed.

(** ** Exit code 0 *)

Lemma sound_bind {A B} w (m : M A) (k : A → M B) :
  sound w m → (∀ x, sound w (k x)) → sound w (bind m k).
Proof.
  intros Hm Hk st HI. specialize (Hm st HI). unfold bind.
  destruct (m st) as [[x| |] st']; [|done..]. by apply Hk.
Qed.

(** A stage that starts no command and counts no error is sound. *)
Lemma sound_silent {A} w (m : M A) :
  (∀ t n, preserves (λ s, trace s = t ∧ errors s = n) m) → sound w m.
Proof.
  intros Hm st HI. destruct (Hm (trace st) (errors st) st) as [Ht He]; [done|].
  destruct (m st) as [[x| |] st']; [|..|done]; cbn [snd] in *;
    unfold clean; by rewrite Ht, He.
Qed.

Lemma sound_ret {A} w (x : A) : sound w (ret x).
Proof. apply sound_silent. intros. apply preserves_ret. Qed.

Lemma sound_getitem w k : sound w (getitem k).
Proof. apply sound_silent. intros. apply preserves_getitem. Qed.

Lemma sound_has_key w k : sound w (has_key k).
Proof. apply sound_silent. intros. apply preserves_has_key. Qed.

Lemma sound_raise {A} w : sound w (@raise_ A).
Proof. by intros st HI. Qed.

Lemma sound_count_error w : sound w count_error.
Proof. intros st HI. cbn. by intros ?. Qed.

Lemma sound_count_continue {A} w : sound w (count_error ;; @continue_ A).
Proof. intros st HI. cbn. by intros ?. Qed.

Lemma clean_snoc w idx s st :
  returns_0 w idx s = true → clean w st →
  clean w (set_trace (trace st ++ [(idx, s)]) st).
Proof.
  intros Hs HI Herr. cbn in *. apply Forall_app. split; [by apply HI|].
  apply Forall_singleton. by right.
Qed.

Lemma sound_must_succeed w idx s : sound w (must_succeed w idx s).
Proof.
  intros st HI. rewrite must_succeed_eq. cbv zeta.
  destruct (answer w idx s) as [rc out|] eqn:Hans; [|done].
  destruct (rc =? 0)%Z eqn:Hrc; [|by intros ?].
  apply clean_snoc; [|done]. unfold returns_0. by rewrite Hans.
Qed.

Lemma sound_may_fail w idx s : sound w (may_fail w idx s).
Proof.
  intros st HI. rewrite may_fail_eq. cbv zeta.
  destruct (answer w idx s) as [rc out|] eqn:Hans; [|done].
  destruct (rc =? 0)%Z eqn:Hrc; [|by intros ?].
  apply clean_snoc; [|done]. unfold returns_0. by rewrite Hans.
Qed.

Lemma sound_write_conf w render : sound w (write_conf render).
Proof. apply sound_silent. intros. by apply preserves_write_conf. Qed.

Lemma sound_before_backup_check w idx : sound w (before_backup_check w idx).
Proof.
  unfold before_backup_check. apply sound_bind; [apply sound_has_key|].
  intros []; [apply sound_must_succeed|apply sound_ret].
Qed.

Lemma sound_rotate w idx : sound w (rotate w idx).
Proof.
  unfold rotate. apply sound_bind; [apply sound_getitem|].
  intros path st HI. destruct (Py.mem path (paths_processed st)); [done|].
  assert (clean w (set_paths (paths_processed st ++ [path]) st)) as HI' by done.
  revert HI'. generalize (set_paths (paths_processed st ++ [path]) st).
  apply sound_bind; [apply sound_write_conf|]. intros _. apply sound_may_fail.
Qed.

Lemma sound_derive_connect w dflt : sound w (derive_connect dflt).
Proof.
  apply sound_silent. intros t n. apply preserves_derive_connect.
  by intros it s [? ?].
Qed.

Lemma sound_check_ssh w idx : sound w (check_ssh w idx).
Proof.
  unfold check_ssh. intros st HI. unfold bind at 1. rewrite run_cmd_eq.
  destruct (answer w idx SshCheck) as [rc out|] eqn:Hans; [|done].
  assert (clean w (set_trace (trace st ++ [(idx, SshCheck)]) st)) as HI'.
  { intros Herr. cbn in *. apply Forall_app. split; [by apply HI|].
    apply Forall_singleton. by left. }
  revert HI'. generalize (set_trace (trace st ++ [(idx, SshCheck)]) st).
  clear st HI. intros st HI.
  destruct (rc =? 0)%Z; [done|]. revert st HI.
  apply sound_bind; [apply sound_getitem|]. intros h.
  destruct (Py.eq h _); [|apply sound_count_continue].
  apply sound_bind; [apply sound_must_succeed|]. intros _. apply sound_must_succeed.
Qed.

Lemma sound_validate_hostname w idx : sound w (validate_hostname w idx).
Proof.
  intros st HI. rewrite validate_hostname_eq.
  destruct (cur st !! "validate_hostname"); [|done]. cbv zeta.
  destruct (answer w idx HostnameQuery) as [rc out|] eqn:Hans; [|done].
  destruct (rc =? 0)%Z eqn:Hrc; [|by intros ?].
  destruct (cur st !! "host") as [h|]; [|done].
  destruct (Py.eq _ h); [|by intros ?].
  apply clean_snoc; [|done]. unfold returns_0. by rewrite Hans.
Qed.

Lemma sound_hook w idx k s : sound w (hook w idx k s).
Proof.
  unfold hook. apply sound_bind; [apply sound_has_key|].
  intros []; [apply sound_may_fail|apply sound_ret].
Qed.

Lemma sound_db_dump w idx : sound w (db_dump w idx).
Proof.
  unfold db_dump. apply sound_bind; [apply sound_getitem|]. intros ty.
  destruct (is_db_type ty); [|apply sound_ret].
  apply sound_bind; [apply sound_silent; intros; apply preserves_grep_db_filter|].
  intros _. apply sound_bind; [apply sound_getitem|]. intros _.
  apply sound_bind; [apply sound_must_succeed|]. intros _.
  apply sound_bind; [apply sound_getitem|]. intros _. apply sound_may_fail.
Qed.

Lemma sound_sync_ssh w idx : sound w (sync_ssh w idx).
Proof.
  unfold sync_ssh.
  apply sound_bind; [apply sound_derive_connect|]. intros _.
  apply sound_bind; [apply sound_check_ssh|]. intros _.
  apply sound_bind; [apply sound_validate_hostname|]. intros _.
  apply sound_bind; [apply sound_hook|]. intros _.
  apply sound_bind; [apply sound_db_dump|]. intros _.
  apply sound_bind.
  { apply sound_silent. intros. by apply preserves_save_conf_ssh. }
  intros _. apply sound_bind; [apply sound_may_fail|]. intros _. apply sound_hook.
Qed.

Lemma sound_sync_native w idx : sound w (sync_native w idx).
Proof.
  unfold sync_native.
  apply sound_bind; [apply sound_derive_connect|]. intros _.
  apply sound_bind.
  { apply sound_bind; [apply sound_has_key|].
    intros []; [apply sound_ret|apply sound_count_continue]. }
  intros _. apply sound_bind.
  { apply sound_silent. intros. by apply preserves_write_passwd. }
  intros _. apply sound_bind.
  { unfold native_txt_check. apply sound_bind; [apply sound_getitem|]. intros wanted.
    destruct (Py.truthy wanted); [|apply sound_ret].
    apply sound_bind; [apply sound_getitem|]. intros _. apply sound_must_succeed. }
  intros _. apply sound_bind; [apply sound_write_conf|]. intros _.
  apply sound_bind; [apply sound_may_fail|]. intros _.
  apply sound_silent. intros. by apply preserves_remove_passwd.
Qed.

Lemma sound_item_body a w idx : sound w (item_body a w idx).
Proof.
  unfold item_body.
  apply sound_bind; [apply sound_getitem|]. intros _.
  apply sound_bind.
  { apply sound_silent. intros t n. apply preserves_default_item.
    by intros it s [? ?]. }
  intros _. apply sound_bind; [apply sound_before_backup_check|]. intros _.
  apply sound_bind.
  { destruct (is_rotation (run_mode a)); [apply sound_rotate|apply sound_ret]. }
  intros _. destruct (is_rotation (run_mode a)); [apply sound_ret|].
  unfold sync. apply sound_bind; [apply sound_getitem|]. intros ty.
  destruct (is_ssh_type ty); [apply sound_sync_ssh|].
  destruct (is_native_type ty); [apply sound_sync_native|apply sound_count_error].
Qed.

Lemma clean_pass a w idx (it : item) st :
  clean w st → clean w (item_pass a w idx it st).2.
Proof.
  intros HI. unfold item_pass. destruct (selected a it) as [[]|]; [|done..].
  pose proof (sound_item_body a w idx (set_cur it st) HI) as Hbody.
  destruct (item_body a w idx (set_cur it st)) as [[[]| |] st']; cbn; [done..|].
  by intros ?.
Qed.

(** X7: a run that exits with code 0 has started no command that failed: every
    command of its trace returned 0, but for the first probe of an SSH
    connection, which the loopback authorization may repair. *)
Theorem exit_0_commands_succeeded a w yaml_loaded lk :
  let r := main a w yaml_loaded lk in
  exit_code r = 0%Z → Forall (went_well w) (trace (final r)).
Proof.
  intros r. subst r. unfold main.
  destruct yaml_loaded as [cfg|]; [|done].
  destruct (cfg_enabled cfg) as [enabled|]; [|done].
  destruct (negb (Py.eq enabled (VBool true))); [by constructor|].
  destruct (acquire lk) as [held|]; [|done].
  destruct (cfg_items cfg) as [items|]; [|done].
  pose proof (loop_preserves a w (clean w) (clean_pass a w) items 0 initial) as Hloop.
  destruct (loop a w 0 items initial) as [o st]. cbn [snd] in Hloop.
  destruct (release held) as [freed|]; [|done]. cbn [exit_code final].
  destruct o as [[]| |]; [|done..]. case_bool_decide; [done|].
  intros _. apply Hloop; [by constructor|lia].
Qed.

(** ** What a sync waits for *)

Lemma reached {A B} (I : run_state → Prop) (m : M A) (k : A → M B) st :
  preserves I m → I st → ¬ I (bind m k st).2 →
  ∃ x st1, m st = (Next x, st1) ∧ I st1 ∧ ¬ I (k x st1).2.
Proof.
  intros Hm HI Hk. specialize (Hm st HI). unfold bind in Hk.
  destruct (m st) as [[x| |] st1]; [|done..]. by exists x, st1.
Qed.

Lemma no_sync_trace idx s st :
  not_sync s = true → no_sync idx st →
  no_sync idx (set_trace (trace st ++ [(idx, s)]) st).
Proof.
  intros Hs Hns. apply bool_decide_eq_true_1 in Hs. unfold no_sync in *. cbn.
  rewrite elem_of_app, list_elem_of_singleton. intros [?|?]; [done|]. congruence.
Qed.

Lemma getitem_next k st v st1 :
  getitem k st = (Next v, st1) → st1 = st ∧ cur st !! k = Some v.
Proof. unfold getitem. destruct (cur st !! k); intros ?; by simplify_eq. Qed.

Lemma setitem_keeps k v st j : j ≠ k → cur (setitem k v st).2 !! j = cur st !! j.
Proof. intros Hj. cbn. by rewrite lookup_insert_ne. Qed.

Lemma derive_connect_keeps dflt st k :
  k ≠ "connect_host" → k ≠ "connect_port" →
  cur (derive_connect dflt st).2 !! k = cur st !! k.
Proof.
  intros Hh Hp.
  assert (∀ v v' s, cur ((setitem "connect_host" v ;; setitem "connect_port" v') s).2 !! k
                    = cur s !! k) as Hset.
  { intros v v' s. cbn. by rewrite !lookup_insert_ne. }
  unfold derive_connect, bind at 1, getitem.
  destruct (cur st !! "connect") as [[| | |s|l]|]; try done.
  - destruct (Py.has_char ":" s); [|apply Hset].
    destruct (Py.split ":" s) as [|h [|p ?]]; first [done | apply Hset].
  - case_bool_decide; [done|apply Hset].
Qed.

Lemma returns_0_exit w idx s rc out :
  answer w idx s = Exit rc out → returns_0 w idx s = (rc =? 0)%Z.
Proof. unfold returns_0. by intros ->. Qed.

Lemma must_succeed_next w idx s st x st1 :
  must_succeed w idx s st = (Next x, st1) →
  returns_0 w idx s = true ∧ cur st1 = cur st.
Proof.
  rewrite must_succeed_eq. unfold returns_0.
  destruct (answer w idx s) as [rc out|]; [|done].
  destruct (rc =? 0)%Z; intros ?; by simplify_eq.
Qed.

Lemma before_backup_check_next w idx st x st1 :
  before_backup_check w idx st = (Next x, st1) →
  check_passes w idx (cur st) = true ∧ cur st1 = cur st.
Proof.
  rewrite before_backup_check_eq. unfold check_passes.
  destruct (cur st !! "before_backup_check"); [|intros ?; by simplify_eq].
  intros [H ?]%must_succeed_next. by rewrite <- H.
Qed.

Lemma check_ssh_next w idx st x st1 :
  check_ssh w idx st = (Next x, st1) →
  ssh_reachable w idx (cur st) = true ∧ cur st1 = cur st.
Proof.
  unfold check_ssh, ssh_reachable, bind at 1. rewrite run_cmd_eq.
  destruct (answer w idx SshCheck) as [rc out|] eqn:Hans; [|done].
  rewrite (returns_0_exit _ _ _ _ _ Hans).
  destruct (rc =? 0)%Z; [unfold ret; intros ?; by simplify_eq|].
  unfold bind at 1, getitem. cbn [cur set_trace].
  destruct (cur st !! "host") as [h|]; [|done].
  destruct (Py.eq h _); [|done].
  unfold bind. rewrite must_succeed_eq. cbv zeta.
  unfold returns_0 at 1.
  destruct (answer w idx LoopbackAuthorize) as [rc1 out1|]; [|done].
  destruct (rc1 =? 0)%Z; [|done].
  intros [-> Hc]%must_succeed_next. by rewrite Hc.
Qed.

Lemma validate_hostname_next w idx st x st1 :
  validate_hostname w idx st = (Next x, st1) →
  hostname_matches w idx (cur st) = true ∧ cur st1 = cur st.
Proof.
  rewrite validate_hostname_eq. unfold hostname_matches.
  destruct (cur st !! "validate_hostname"); [|done]. cbv zeta.
  destruct (answer w idx HostnameQuery) as [rc out|]; [|done].
  destruct (rc =? 0)%Z; [|done].
  destruct (cur st !! "host") as [h|]; [|done].
  destruct (Py.eq _ h); intros ?; by simplify_eq.
Qed.

Lemma keeps_cur {A} (m : M A) st x st1 :
  (∀ c, preserves (λ s, cur s = c) m) → m st = (Next x, st1) → cur st1 = cur st.
Proof. intros Hm E. specialize (Hm (cur st) st eq_refl). by rewrite E in Hm. Qed.

Lemma db_dump_next w idx st x st1 ty :
  db_dump w idx st = (Next x, st1) →
  cur st !! "type" = Some ty → is_db_type ty = true →
  returns_0 w idx RemoteDump = true.
Proof.
  intros E Hty Hdb. unfold db_dump in E.
  rewrite (bind_next _ _ _ ty st) in E by (by apply getitem_some).
  rewrite Hdb in E. unfold bind at 1 in E.
  destruct (grep_db_filter st) as [[[]| |] s1]; [|done..].
  unfold bind at 1 in E. destruct (getitem "source" s1) as [[v| |] s2]; [|done..].
  unfold bind at 1 in E.
  destruct (must_succeed w idx RemoteDump s2) as [[[]| |] s3] eqn:E3; [|done..].
  by apply must_succeed_next in E3 as [? _].
Qed.

Lemma password_test_next st x st1 :
  (let* present := has_key "connect_password" in
   if present then ret tt else (count_error ;; continue_)) st = (Next x, st1) →
  st1 = st.
Proof.
  unfold bind, has_key.
  case_bool_decide; [unfold ret; intros ?; by simplify_eq|done].
Qed.

Lemma write_passwd_next st x st1 :
  write_passwd st = (Next x, st1) →
  (∃ text, cur st !! "connect_password" = Some (VStr text)) ∧ cur st1 = cur st.
Proof.
  unfold write_passwd.
  destruct (cur st !! "connect_password") as [[| | |text|]|]; try done.
  intros ?; simplify_eq. split; [by exists text|done].
Qed.

Lemma native_txt_check_next w idx st x st1 v :
  native_txt_check w idx st = (Next x, st1) →
  cur st !! "native_txt_check" = Some v → Py.truthy v = true →
  returns_0 w idx NativeTxtCheck = true.
Proof.
  intros E Hv Htruthy. unfold native_txt_check in E.
  rewrite (bind_next _ _ _ v st) in E by (by apply getitem_some).
  rewrite Htruthy in E. unfold bind at 1 in E.
  destruct (getitem "source" st) as [[src| |] s1]; [|done..].
  by apply must_succeed_next in E as [? _].
Qed.

Section NoSync.

Variable idx : nat.

Lemma no_sync_errors n st : no_sync idx st → no_sync idx (set_errors n st).
Proof. done. Qed.
Lemma no_sync_conf c st : no_sync idx st → no_sync idx (set_conf c st).
Proof. done. Qed.
Lemma no_sync_passwd f st : no_sync idx st → no_sync idx (set_passwd f st).
Proof. done. Qed.
Lemma no_sync_cur it st : no_sync idx st → no_sync idx (set_cur it st).
Proof. done. Qed.
Lemma no_sync_paths l st : no_sync idx st → no_sync idx (set_paths l st).
Proof. done. Qed.

End NoSync.

Create HintDb nosync.

#[local] Hint Resolve no_sync_errors no_sync_conf no_sync_passwd no_sync_cur
  no_sync_paths no_sync_trace : nosync.

Ltac no_sync_stage :=
  first
    [ apply preserves_getitem | apply preserves_has_key | apply preserves_ret
    | apply preserves_default_item
    | apply preserves_derive_connect
    | apply (preserves_before_backup_check _ _ _ not_sync)
    | apply (preserves_check_ssh _ _ _ not_sync)
    | apply (preserves_validate_hostname _ _ _ not_sync)
    | apply (preserves_hook _ _ _ not_sync)
    | apply (preserves_db_dump _ _ _ not_sync)
    | apply preserves_save_conf_ssh
    | apply preserves_write_passwd
    | apply (preserves_native_txt_check _ _ _ not_sync)
    | apply preserves_write_conf
    | apply (preserves_rotate _ _ _ not_sync) ];
  eauto with nosync.

Ltac key_out := apply (bool_decide_unpack _); vm_compute; exact I.

(** X8: the sync of an item is started only after everything in front of it
    has passed: the item is selected and its [before_backup_check] passes;
    for an SSH type the connection works, the remote host name is the
    [host] of the item and, for a database type, the remote dump returned
    0; for the native type the password is in the item and the check for
    the marker file, when asked for, returned 0. *)
Theorem sync_only_after_checks a w idx (it : item) st :
  no_sync idx st →
  ¬ no_sync idx (item_pass a w idx it st).2 →
  selected a it = Some true
  ∧ check_passes w idx it = true
  ∧ ∃ ty, it !! "type" = Some ty
      ∧ if is_ssh_type ty then
          ssh_reachable w idx it = true
          ∧ hostname_matches w idx it = true
          ∧ (is_db_type ty = true → returns_0 w idx RemoteDump = true)
        else
          is_native_type ty = true
          ∧ (∃ text, it !! "connect_password" = Some (VStr text))
          ∧ (∀ v, it !! "native_txt_check" = Some v → Py.truthy v = true →
                  returns_0 w idx NativeTxtCheck = true).
Proof.
  intros Hns Hin. unfold item_pass in Hin.
  destruct (selected a it) as [[]|] eqn:Hsel; [|done..].
  split; [done|]. unfold no_sync in Hin. rewrite caught_trace in Hin.
  change (¬ no_sync idx (item_body a w idx (set_cur it st)).2) in Hin.
  assert (no_sync idx (set_cur it st)) as Hns0 by done.
  unfold item_body in Hin.
  apply reached in Hin as (number & st1 & E1 & Hns1 & Hin);
    [|no_sync_stage|done].
  apply getitem_next in E1 as [-> _].
  apply reached in Hin as (? & st2 & E2 & Hns2 & Hin); [|no_sync_stage|done].
  rewrite default_item_eq in E2. injection E2 as _ <-.
  clear Hns Hns0 Hns1.
  set (st2 := set_cur (apply_defaults (debug a) it) (set_cur it st)) in *.
  assert (cur st2 = apply_defaults (debug a) it) as Hcur2 by done.
  clearbody st2.
  assert (∀ k, k ∉ defaulted_keys → k ∉ verbosity_keys → cur st2 !! k = it !! k)
    as Hother.
  { intros k Hk1 Hk2. rewrite Hcur2. apply apply_defaults_other.
    - rewrite eq_None_not_Some. by rewrite assoc_verbosity_table.
    - rewrite eq_None_not_Some. by rewrite assoc_default_table. }
  assert (∀ k v, k ∉ verbosity_keys → it !! k = Some v → cur st2 !! k = Some v)
    as Hkeep.
  { intros k v Hk Hv. rewrite Hcur2. apply apply_defaults_keep; [|done].
    rewrite eq_None_not_Some. by rewrite assoc_verbosity_table. }
  clear Hcur2.
  apply reached in Hin as (? & st3 & E3 & Hns3 & Hin); [|no_sync_stage|done].
  apply before_backup_check_next in E3 as [Hcheck Hcur3].
  assert (check_passes w idx it = true) as Hcheck'.
  { revert Hcheck. unfold check_passes. rewrite Hother; [done|key_out..]. }
  split; [done|]. clear Hcheck Hcheck'. rewrite <- Hcur3 in Hother, Hkeep.
  clear Hcur3 Hns2 st2.
  destruct (is_rotation (run_mode a)).
  { exfalso. apply Hin. apply preserves_bind; [no_sync_stage|..|done].
    intros _. apply preserves_ret. }
  apply reached in Hin as (? & st4 & E4 & Hns4 & Hin); [|no_sync_stage|done].
  unfold ret in E4. injection E4 as _ <-. clear Hns4.
  unfold sync in Hin.
  apply reached in Hin as (ty & st4 & E4 & Hns4 & Hin); [|no_sync_stage|done].
  apply getitem_next in E4 as [-> Hty]. clear Hns4.
  exists ty. split; [rewrite <- Hother; [done|key_out..]|].
  destruct (is_ssh_type ty); [|destruct (is_native_type ty)]; cycle 2.
  { exfalso. apply Hin. by apply preserves_count_error; eauto with nosync. }
  - (* an SSH type *)
    unfold sync_ssh in Hin.
    apply reached in Hin as (? & st4 & E4 & Hns4 & Hin); [|no_sync_stage|done].
    assert (∀ k, k ≠ "connect_host" → k ≠ "connect_port" →
                 cur st4 !! k = cur st3 !! k) as Hcur4.
    { intros k ? ?. rewrite <- (derive_connect_keeps 22 st3 k) by done.
      by rewrite E4. }
    apply reached in Hin as (? & st5 & E5 & Hns5 & Hin); [|no_sync_stage|done].
    apply check_ssh_next in E5 as [Hssh Hcur5].
    apply reached in Hin as (? & st6 & E6 & Hns6 & Hin); [|no_sync_stage|done].
    apply validate_hostname_next in E6 as [Hname Hcur6].
    apply reached in Hin as (? & st7 & E7 & Hns7 & Hin); [|no_sync_stage|done].
    apply keeps_cur in E7 as Hcur7;
      [|intros c; by apply (preserves_hook _ _ _ (λ _, true))].
    apply reached in Hin as (? & st8 & E8 & Hns8 & Hin); [|no_sync_stage|done].
    assert (cur st5 !! "host" = it !! "host") as Hhost.
    { rewrite Hcur5, Hcur4 by done. apply Hother; key_out. }
    split_and!.
    + revert Hssh. unfold ssh_reachable. by rewrite <- Hcur5, Hhost.
    + revert Hname. unfold hostname_matches. by rewrite Hhost.
    + intros Hdb. apply (db_dump_next _ _ _ _ _ ty E8); [|done].
      by rewrite Hcur7, Hcur6, Hcur5, Hcur4.
  - (* the native type *)
    split; [done|]. unfold sync_native in Hin.
    apply reached in Hin as (? & st4 & E4 & Hns4 & Hin); [|no_sync_stage|done].
    assert (∀ k, k ≠ "connect_host" → k ≠ "connect_port" →
                 cur st4 !! k = cur st3 !! k) as Hcur4.
    { intros k ? ?. rewrite <- (derive_connect_keeps 873 st3 k) by done.
      by rewrite E4. }
    apply reached in Hin as (? & st5 & E5 & Hns5 & Hin); [| |done]; cycle 1.
    { apply preserves_bind; [apply preserves_has_key|].
      intros []; [apply preserves_ret|]. apply preserves_bind.
      - by apply preserves_count_error; eauto with nosync.
      - intros _. apply preserves_continue. }
    apply password_test_next in E5 as ->.
    apply reached in Hin as (? & st6 & E6 & Hns6 & Hin); [|no_sync_stage|done].
    apply write_passwd_next in E6 as [[text Htext] Hcur6].
    apply reached in Hin as (? & st7 & E7 & Hns7 & Hin); [|no_sync_stage|done].
    split.
    + exists text. rewrite <- Htext, Hcur4 by done. symmetry. apply Hother; key_out.
    + intros v Hv Htruthy. apply (native_txt_check_next _ _ _ _ _ v E7); [|done].
      rewrite Hcur6, Hcur4 by done. apply Hkeep; [key_out|done].
Qed.

(** ** A sync that cannot start *)

Lemma cur_set_cur c st : cur (set_cur c st) = c.
Proof. reflexivity. Qed.

Lemma cur_set_trace t st : cur (set_trace t st) = cur st.
Proof. reflexivity. Qed.

Lemma bind_ret {A B} (x : A) (k : A → M B) st : bind (ret x) k st = k x st.
Proof. reflexivity. Qed.

Lemma item_body_sync a w idx (it : item) st :
  is_rotation (run_mode a) = false →
  is_Some (it !! "number") →
  check_passes w idx it = true →
  item_body a w idx (set_cur it st) =
  sync w idx (set_trace (trace st ++ check_trace idx it)
                (set_cur (apply_defaults (debug a) it) st)).
Proof.
  intros Hrot [number Hnumber] Hcheck. unfold item_body. rewrite Hrot.
  rewrite (bind_next _ _ _ number (set_cur it st)) by (by apply getitem_some).
  rewrite (bind_next _ _ _ tt _ (default_item_eq _ _)).
  set (st1 := set_cur _ (set_cur it st)).
  assert (before_backup_check w idx st1 =
          (Next tt, set_trace (trace st ++ check_trace idx it)
                      (set_cur (apply_defaults (debug a) it) st))) as Hc.
  { rewrite before_backup_check_eq. subst st1. cbn [cur set_cur].
    rewrite apply_defaults_other by (by destruct (debug a)).
    revert Hcheck. unfold check_passes, check_trace.
    destruct (it !! "before_backup_check").
    - rewrite must_succeed_eq.
      destruct (answer w idx BeforeBackupCheck) as [rc out|]; [|done].
      by intros ->.
    - intros _. unfold set_trace, set_cur. cbn. by rewrite app_nil_r. }
  rewrite (bind_next _ _ _ _ _ Hc). by rewrite bind_ret.
Qed.

Lemma derive_connect_cases dflt st :
  derive_connect dflt st = (Raised, st)
  ∨ ∃ c, derive_connect dflt st = (Next tt, set_cur c st)
         ∧ ∀ k, k ≠ "connect_host" → k ≠ "connect_port" → c !! k = cur st !! k.
Proof.
  assert (∀ v v',
            ∃ c, (setitem "connect_host" v ;; setitem "connect_port" v') st
                 = (Next tt, set_cur c st)
                 ∧ ∀ k, k ≠ "connect_host" → k ≠ "connect_port" → c !! k = cur st !! k)
    as Hset.
  { intros v v'. eexists. split; [reflexivity|].
    intros k ? ?. cbn. by rewrite !lookup_insert_ne. }
  enough (∀ r, derive_connect dflt st = r →
               r = (Raised, st)
               ∨ ∃ c, r = (Next tt, set_cur c st)
                      ∧ ∀ k, k ≠ "connect_host" → k ≠ "connect_port" →
                             c !! k = cur st !! k) as Hr.
  { destruct (Hr _ eq_refl) as [->|(c & -> & Hc)]; [by left|right; by exists c]. }
  intros r. unfold derive_connect, bind at 1, getitem.
  destruct (cur st !! "connect") as [[| | |s|l]|]; try (intros <-; by left).
  - destruct (Py.has_char ":" s); [|intros <-; right; apply Hset].
    destruct (Py.split ":" s) as [|h [|p ?]]; intros <-;
      first [by left | right; apply Hset].
  - case_bool_decide; intros <-; [by left|right; apply Hset].
Qed.

Lemma sync_unknown_type w idx st :
  (∀ ty, cur st !! "type" = Some ty → is_ssh_type ty = false ∧ is_native_type ty = false) →
  sync_refused st (caught (sync w idx st)).2.
Proof.
  intros Hty. unfold sync. destruct (cur st !! "type") as [ty|] eqn:E.
  - rewrite (bind_next _ _ _ ty st) by (by apply getitem_some).
    destruct (Hty ty eq_refl) as [-> ->]. done.
  - by rewrite (bind_raised _ _ _ st) by (by apply getitem_none).
Qed.

Lemma sync_native_without_password w idx st ty :
  cur st !! "type" = Some ty → is_ssh_type ty = false → is_native_type ty = true →
  cur st !! "connect_password" = None →
  sync_refused st (caught (sync w idx st)).2.
Proof.
  intros Hty Hssh Hnat Hpw. unfold sync.
  rewrite (bind_next _ _ _ ty st) by (by apply getitem_some).
  rewrite Hssh, Hnat. unfold sync_native.
  destruct (derive_connect_cases 873 st) as [E|(c & E & Hc)].
  - by rewrite (bind_raised _ _ _ _ E).
  - rewrite (bind_next _ _ _ _ _ E).
    assert ((let* present := has_key "connect_password" in
             if present then ret tt else (count_error ;; continue_)) (set_cur c st)
            = (Continue, set_errors (S (errors st)) (set_cur c st))) as E2.
    { unfold bind at 1, has_key. cbn [cur set_cur].
      rewrite Hc, Hpw by done. by rewrite bool_decide_eq_false_2 by (by intros [? ?]). }
    by rewrite (bind_continue _ _ _ _ E2).
Qed.

Lemma refused_pass a w idx (it : item) st :
  is_rotation (run_mode a) = false →
  selected a it = Some true →
  is_Some (it !! "number") →
  check_passes w idx it = true →
  (∀ st1, cur st1 = apply_defaults (debug a) it →
          sync_refused st1 (caught (sync w idx st1)).2) →
  one_error_only idx it st (item_pass a w idx it st).2.
Proof.
  intros Hrot Hsel Hnumber Hcheck Hsync. unfold item_pass. rewrite Hsel.
  rewrite item_body_sync by done.
  destruct (Hsync (set_trace (trace st ++ check_trace idx it)
                     (set_cur (apply_defaults (debug a) it) st))
              (cur_set_cur _ _))
    as (He & Hp & Hc & Hf & Ht).
  unfold one_error_only. by rewrite He, Hp, Hc, Hf, Ht.
Qed.

(** X9: an item whose [type] is missing or is none of the known ones costs one
    error, and nothing else is done for it. *)
Theorem unknown_type_one_error a w idx (it : item) st :
  is_rotation (run_mode a) = false →
  selected a it = Some true →
  is_Some (it !! "number") →
  check_passes w idx it = true →
  (∀ ty, it !! "type" = Some ty → is_ssh_type ty = false ∧ is_native_type ty = false) →
  one_error_only idx it st (item_pass a w idx it st).2.
Proof.
  intros Hrot Hsel Hnumber Hcheck Hty. apply refused_pass; [done..|].
  intros st1 Hcur. apply sync_unknown_type. intros ty.
  rewrite Hcur, default_kept by key_out. apply Hty.
Qed.

(** X10: a native item without [connect_password] costs one error: no
    credentials file is made, no configuration written, and no command
    started for the sync, whether its [connect] can be read or not. *)
Theorem native_without_password_one_error a w idx (it : item) st ty :
  is_rotation (run_mode a) = false →
  selected a it = Some true →
  is_Some (it !! "number") →
  check_passes w idx it = true →
  it !! "type" = Some ty → is_ssh_type ty = false → is_native_type ty = true →
  it !! "connect_password" = None →
  one_error_only idx it st (item_pass a w idx it st).2.
Proof.
  intros Hrot Hsel Hnumber Hcheck Hty Hssh Hnat Hpw. apply refused_pass; [done..|].
  intros st1 Hcur. apply (sync_native_without_password w idx st1 ty); [|done..|].
  - by rewrite Hcur, default_kept by key_out.
  - by rewrite Hcur, default_kept by key_out.
Qed.

(** ** The credentials file at the end of a pass *)

Lemma bind_next_inv {A B} (m : M A) (k : A → M B) st y st' :
  bind m k st = (Next y, st') →
  ∃ x st1, m st = (Next x, st1) ∧ k x st1 = (Next y, st').
Proof.
  unfold bind. destruct (m st) as [[x| |] st1]; [|done..]. intros E. by exists x, st1.
Qed.

Lemma sync_native_next w idx st y st' :
  sync_native w idx st = (Next y, st') → passwd_file st' = None.
Proof.
  unfold sync_native. intros E.
  do 6 (apply bind_next_inv in E as (? & ? & _ & E)).
  unfold remove_passwd in E. by injection E as _ <-.
Qed.

(** X11: when the body of a native item comes to its end, no credentials file
    is left behind. *)
Theorem credentials_removed_at_end a w idx (it : item) st st' ty :
  is_rotation (run_mode a) = false →
  it !! "type" = Some ty → is_ssh_type ty = false → is_native_type ty = true →
  item_body a w idx (set_cur it st) = (Next tt, st') →
  passwd_file st' = None.
Proof.
  intros Hrot Hty Hssh Hnat.
  pose proof (cur_set_cur it st) as Hcur. revert Hcur.
  generalize (set_cur it st). clear st. intros st Hcur E.
  unfold item_body in E. rewrite Hrot in E.
  apply bind_next_inv in E as (? & st1 & [-> _]%getitem_next & E).
  apply bind_next_inv in E as (? & st2 & E2 & E).
  rewrite default_item_eq in E2. injection E2 as _ <-.
  apply bind_next_inv in E as (? & st3 & [_ Hcur3]%before_backup_check_next & E).
  rewrite bind_ret in E. unfold sync in E.
  apply bind_next_inv in E as (ty' & st4 & [-> Hty']%getitem_next & E).
  rewrite Hcur3, cur_set_cur, Hcur, default_kept, Hty in Hty' by key_out.
  injection Hty' as <-.
  rewrite Hssh, Hnat in E. by apply sync_native_next in E.
Qed.

(** ** A fault of the filters *)

Lemma loop_app a w (l1 l2 : list item) :
  ∀ idx st,
    loop a w idx (l1 ++ l2) st =
    match loop a w idx l1 st with
    | (Next _, st1) => loop a w (idx + length l1) l2 st1
    | r => r
    end.
Proof.
  induction l1 as [|it l1 IH]; intros idx st.
  { cbn. by rewrite Nat.add_0_r. }
  cbn [loop app length].
  destruct (item_pass a w idx it st) as [[[]| |] st1]; [|done..].
  rewrite IH. by rewrite Nat.add_succ_r.
Qed.

(** X12: an item on which the filters cannot be evaluated (it has no [enabled],
    or lacks the [number] or [host] that is filtered on) ends the whole
    run, unlike a fault inside the body of an item: the items behind it
    are not looked at, and the exit code is 1. *)
Theorem filter_fault_ends_run a w (items1 items2 : list item) (it : item) :
  selected a it = None →
  Forall (λ it', is_Some (selected a it')) items1 →
  loop a w 0 (items1 ++ it :: items2) initial
  = (Raised, (loop a w 0 items1 initial).2)
  ∧ ∀ lk, exit_code (main a w (Some (config_of (items1 ++ it :: items2))) lk) = 1%Z.
Proof.
  intros Hsel Hall.
  assert (loop a w 0 (items1 ++ it :: items2) initial
          = (Raised, (loop a w 0 items1 initial).2)) as Hloop.
  { rewrite loop_app. pose proof (loop_completes a w 0 items1 initial Hall) as Hend.
    destruct (loop a w 0 items1 initial) as [o st1]. cbn [fst snd] in *. subst o.
    cbn [loop]. unfold item_pass. by rewrite Hsel. }
  split; [done|]. intros lk. unfold main, config_of. cbn [cfg_enabled cfg_items].
  change (negb (Py.eq (VBool true) (VBool true))) with false. cbv iota.
  destruct (acquire lk) as [held|]; [|done]. rewrite Hloop.
  by destruct (release held).
Qed.

(** ** A sync over SSH that goes well *)

Lemma cur_set_conf c st : cur (set_conf c st) = cur st.
Proof. reflexivity. Qed.

Lemma check_ssh_ok w idx st :
  returns_0 w idx SshCheck = true →
  check_ssh w idx st = (Next tt, set_trace (trace st ++ [(idx, SshCheck)]) st).
Proof.
  intros H0. unfold check_ssh, bind at 1. rewrite run_cmd_eq.
  revert H0. unfold returns_0.
  destruct (answer w idx SshCheck) as [rc out|]; [|done]. by intros ->.
Qed.

Lemma validate_hostname_ok w idx st :
  is_Some (cur st !! "validate_hostname") →
  hostname_matches w idx (cur st) = true →
  validate_hostname w idx st
  = (Next tt, set_trace (trace st ++ [(idx, HostnameQuery)]) st).
Proof.
  intros [flag Hflag] Hname. rewrite validate_hostname_eq, Hflag. cbv zeta.
  revert Hname. unfold hostname_matches.
  destruct (answer w idx HostnameQuery) as [rc out|]; [|done].
  destruct (cur st !! "host") as [h|]; [|done].
  intros [-> ->]%andb_true_iff. done.
Qed.

Lemma hook_absent w idx k s st : cur st !! k = None → hook w idx k s st = (Next tt, st).
Proof.
  intros Hk. unfold hook.
  by rewrite (bind_next _ _ _ false st) by (by apply has_key_none).
Qed.

Lemma db_dump_other w idx st ty :
  cur st !! "type" = Some ty → is_db_type ty = false → db_dump w idx st = (Next tt, st).
Proof.
  intros Hty Hdb. unfold db_dump.
  rewrite (bind_next _ _ _ ty st) by (by apply getitem_some). by rewrite Hdb.
Qed.

Lemma save_conf_ssh_ok st text :
  rendered_ssh (cur st) = Some text →
  save_conf_ssh st = (Next tt, set_conf (Some text) st).
Proof.
  unfold rendered_ssh, save_conf_ssh, write_conf.
  destruct (conf_backup_lines (cur st)) as [lines|]; [|done].
  cbn [mbind option_bind]. by intros ->.
Qed.

Lemma connected_other dflt s (it : item) k :
  k ≠ "connect_host" → k ≠ "connect_port" → connected dflt s it !! k = it !! k.
Proof. intros ? ?. unfold connected. by rewrite !lookup_insert_ne. Qed.

Lemma sync_ssh_goes_well w idx st s text rc out :
  plain_ssh (cur st) s →
  is_Some (cur st !! "validate_hostname") →
  returns_0 w idx SshCheck = true →
  hostname_matches w idx (cur st) = true →
  rendered_ssh (connected 22 s (cur st)) = Some text →
  answer w idx RsnapshotSync = Exit rc out →
  ∃ st', sync w idx st = (Next tt, st')
         ∧ trace st' = (trace st ++ [(idx, SshCheck); (idx, HostnameQuery);
                                     (idx, RsnapshotSync)])%list
         ∧ conf_file st' = Some text
         ∧ errors st' = errors st + (if (rc =? 0)%Z then 0 else 1)
         ∧ passwd_file st' = passwd_file st
         ∧ paths_processed st' = paths_processed st.
Proof.
  intros ((ty & Hty & Hssh & Hdb) & Hconnect & Hbefore & Hafter) Hflag H0 Hname
    Htext Hsync.
  unfold sync. rewrite (bind_next _ _ _ ty st) by (by apply getitem_some).
  rewrite Hssh. unfold sync_ssh.
  rewrite (bind_next _ _ _ _ _ (derive_connect_str 22 st s Hconnect)).
  fold (connected 22 s (cur st)). set (c := connected 22 s (cur st)) in *.
  assert (∀ k, k ≠ "connect_host" → k ≠ "connect_port" → c !! k = cur st !! k) as Hc.
  { intros k ? ?. by apply connected_other. }
  clearbody c.
  rewrite (bind_next _ _ _ _ _ (check_ssh_ok w idx _ H0)).
  erewrite bind_next; cycle 1.
  { apply validate_hostname_ok.
    - by rewrite cur_set_trace, cur_set_cur, Hc.
    - rewrite cur_set_trace, cur_set_cur. revert Hname. unfold hostname_matches.
      by rewrite Hc. }
  erewrite bind_next; cycle 1.
  { apply hook_absent. by rewrite !cur_set_trace, cur_set_cur, Hc. }
  erewrite bind_next; cycle 1.
  { apply (db_dump_other _ _ _ ty); [|done].
    by rewrite !cur_set_trace, cur_set_cur, Hc. }
  erewrite bind_next; cycle 1.
  { apply (save_conf_ssh_ok _ text). by rewrite !cur_set_trace, cur_set_cur. }
  set (st5 := set_conf _ _).
  assert (cur st5 = c ∧ errors st5 = errors st
          ∧ trace st5 = (trace st ++ [(idx, SshCheck); (idx, HostnameQuery)])%list
          ∧ conf_file st5 = Some text ∧ passwd_file st5 = passwd_file st
          ∧ paths_processed st5 = paths_processed st)
    as (Hcur5 & Herr5 & Htrace5 & Hconf5 & Hpw5 & Hpaths5).
  { subst st5. split_and!; try reflexivity. cbn. by rewrite <- app_assoc. }
  clearbody st5.
  assert (∀ st6, cur st6 = c → hook w idx "exec_after_rsync" ExecAfterRsync st6
                                 = (Next tt, st6)) as Hhook.
  { intros st6 Hcur6. apply hook_absent. by rewrite Hcur6, Hc. }
  destruct (rc =? 0)%Z eqn:Hrc.
  - erewrite bind_next; cycle 1.
    { rewrite may_fail_eq, Hsync. cbv zeta. rewrite Hrc. reflexivity. }
    rewrite Hhook by done. eexists. split; [reflexivity|]. cbn.
    rewrite Htrace5, <- app_assoc, Nat.add_0_r. by split_and!.
  - erewrite bind_next; cycle 1.
    { rewrite may_fail_eq, Hsync. cbv zeta. rewrite Hrc. reflexivity. }
    rewrite Hhook by done. eexists. split; [reflexivity|]. cbn.
    rewrite Htrace5, <- app_assoc, Herr5, Nat.add_1_r. by split_and!.
Qed.

(** X13: a plain item over SSH whose checks pass is synced: the connection is
    probed, the remote host name compared, the configuration written, and
    rsnapshot run, in this order and with nothing else; an error is counted
    only if rsnapshot does not return 0. *)
Theorem ssh_sync_goes_well a w idx (it : item) st s text rc out :
  is_rotation (run_mode a) = false →
  selected a it = Some true →
  is_Some (it !! "number") →
  check_passes w idx it = true →
  plain_ssh it s →
  returns_0 w idx SshCheck = true →
  hostname_matches w idx it = true →
  rendered_ssh (connected 22 s (apply_defaults (debug a) it)) = Some text →
  answer w idx RsnapshotSync = Exit rc out →
  let st' := (item_pass a w idx it st).2 in
  trace st' = (trace st ++ check_trace idx it
                 ++ [(idx, SshCheck); (idx, HostnameQuery); (idx, RsnapshotSync)])%list
  ∧ conf_file st' = Some text
  ∧ errors st' = errors st + (if (rc =? 0)%Z then 0 else 1)
  ∧ passwd_file st' = passwd_file st
  ∧ paths_processed st' = paths_processed st.
Proof.
  intros Hrot Hsel Hnumber Hcheck ((ty & Hty & Hssh & Hdb) & Hconnect & Hbefore & Hafter)
    H0 Hname Htext Hsync.
  unfold item_pass. rewrite Hsel. rewrite item_body_sync by done.
  set (st1 := set_trace _ _).
  assert (cur st1 = apply_defaults (debug a) it) as Hcur1.
  { subst st1. by rewrite cur_set_trace, cur_set_cur. }
  assert (errors st1 = errors st ∧ passwd_file st1 = passwd_file st
          ∧ paths_processed st1 = paths_processed st
          ∧ trace st1 = (trace st ++ check_trace idx it)%list)
    as (Herr1 & Hpw1 & Hpaths1 & Htrace1) by (by subst st1).
  clearbody st1.
  destruct (sync_ssh_goes_well w idx st1 s text rc out)
    as (st' & -> & Htrace & Hconf & Herr & Hpw & Hpaths); try done.
  - rewrite Hcur1. split_and!; [exists ty; split_and!; [|done..]|..];
      by rewrite default_kept by key_out.
  - rewrite Hcur1. apply defaulted_keys_present. key_out.
  - revert Hname. unfold hostname_matches. by rewrite Hcur1, default_kept by key_out.
  - by rewrite Hcur1.
  - cbn [caught snd]. rewrite Htrace, Htrace1, <- app_assoc, Herr, Herr1, Hpw, Hpaths.
    by split_and!.
Qed.

(** ** A native sync that goes well *)

Lemma txt_check_wanted_defaults d (it : item) :
  ∃ v, apply_defaults d it !! "native_txt_check" = Some v
       ∧ Py.truthy v = txt_check_wanted it.
Proof.
  rewrite apply_defaults_lookup. unfold txt_check_wanted.
  replace (assoc "native_txt_check" (verbosity_table d)) with (@None value)
    by (by destruct d).
  destruct (it !! "native_txt_check") as [v|]; [by exists v|].
  by exists (VBool false).
Qed.

Lemma write_passwd_ok st pw :
  cur st !! "connect_password" = Some (VStr pw) →
  write_passwd st
  = (Next tt, set_passwd (Some {| pw_text := pw; pw_0600 := true |}) st).
Proof. intros Hpw. unfold write_passwd. by rewrite Hpw. Qed.

Lemma native_txt_check_ok w idx st v :
  cur st !! "native_txt_check" = Some v →
  (Py.truthy v = true → is_Some (cur st !! "source") ∧ returns_0 w idx NativeTxtCheck = true) →
  native_txt_check w idx st
  = (Next tt,
     if Py.truthy v then set_trace (trace st ++ [(idx, NativeTxtCheck)]) st else st).
Proof.
  intros Hv Hok. unfold native_txt_check.
  rewrite (bind_next _ _ _ v st) by (by apply getitem_some).
  destruct (Py.truthy v); [|done].
  destruct Hok as [[src Hsrc] H0]; [done|].
  rewrite (bind_next _ _ _ src st) by (by apply getitem_some).
  rewrite must_succeed_eq. cbv zeta. revert H0. unfold returns_0.
  destruct (answer w idx NativeTxtCheck) as [rc out|]; [|done]. by intros ->.
Qed.

Lemma cur_set_passwd f st : cur (set_passwd f st) = cur st.
Proof. reflexivity. Qed.

Lemma sync_native_goes_well w idx st s pw v text rc out :
  plain_native (cur st) s pw →
  cur st !! "native_txt_check" = Some v →
  (Py.truthy v = true → is_Some (cur st !! "source") ∧ returns_0 w idx NativeTxtCheck = true) →
  conf_sync_native (connected 873 s (cur st)) = Some text →
  answer w idx RsnapshotSync = Exit rc out →
  ∃ st', sync w idx st = (Next tt, st')
         ∧ trace st' = (trace st
                          ++ (if Py.truthy v then [(idx, NativeTxtCheck)] else [])
                          ++ [(idx, RsnapshotSync)])%list
         ∧ conf_file st' = Some text
         ∧ errors st' = errors st + (if (rc =? 0)%Z then 0 else 1)
         ∧ passwd_file st' = None
         ∧ paths_processed st' = paths_processed st.
Proof.
  intros ((ty & Hty & Hssh & Hnat) & Hconnect & Hpw) Hv Hok Htext Hsync.
  unfold sync. rewrite (bind_next _ _ _ ty st) by (by apply getitem_some).
  rewrite Hssh, Hnat. unfold sync_native.
  rewrite (bind_next _ _ _ _ _ (derive_connect_str 873 st s Hconnect)).
  fold (connected 873 s (cur st)). set (c := connected 873 s (cur st)) in *.
  assert (∀ k, k ≠ "connect_host" → k ≠ "connect_port" → c !! k = cur st !! k) as Hc.
  { intros k ? ?. by apply connected_other. }
  clearbody c.
  erewrite bind_next; cycle 1.
  { erewrite bind_next; [|eapply has_key_some; by rewrite cur_set_cur, Hc].
    reflexivity. }
  erewrite bind_next; cycle 1.
  { apply (write_passwd_ok _ pw). by rewrite cur_set_cur, Hc. }
  erewrite bind_next; cycle 1.
  { apply (native_txt_check_ok w idx _ v).
    - by rewrite cur_set_passwd, cur_set_cur, Hc.
    - rewrite cur_set_passwd, cur_set_cur, Hc by done. apply Hok. }
  set (st4 := if Py.truthy v then _ else _).
  assert (cur st4 = c ∧ errors st4 = errors st
          ∧ trace st4 = (trace st ++ (if Py.truthy v then [(idx, NativeTxtCheck)] else []))%list
          ∧ paths_processed st4 = paths_processed st)
    as (Hcur4 & Herr4 & Htrace4 & Hpaths4).
  { subst st4. destruct (Py.truthy v); split_and!; try reflexivity.
    cbn. by rewrite app_nil_r. }
  clearbody st4.
  erewrite bind_next; cycle 1.
  { unfold write_conf. rewrite Hcur4, Htext. reflexivity. }
  destruct (rc =? 0)%Z eqn:Hrc.
  - erewrite bind_next; cycle 1.
    { rewrite may_fail_eq, Hsync. cbv zeta. rewrite Hrc. reflexivity. }
    eexists. split; [reflexivity|]. cbn.
    rewrite Htrace4, <- app_assoc, Nat.add_0_r. by split_and!.
  - erewrite bind_next; cycle 1.
    { rewrite may_fail_eq, Hsync. cbv zeta. rewrite Hrc. reflexivity. }
    eexists. split; [reflexivity|]. cbn.
    rewrite Htrace4, <- app_assoc, Herr4, Nat.add_1_r. by split_and!.
Qed.

(** X14: a native item whose checks pass is synced: the password is written to
    the credentials file, the marker file is looked for if the item asks
    for it, the configuration is written, rsnapshot is run, and the
    credentials file is removed; an error is counted only if rsnapshot
    does not return 0. *)
Theorem native_sync_goes_well a w idx (it : item) st s pw text rc out :
  is_rotation (run_mode a) = false →
  selected a it = Some true →
  is_Some (it !! "number") →
  check_passes w idx it = true →
  plain_native it s pw →
  (txt_check_wanted it = true →
   is_Some (it !! "source") ∧ returns_0 w idx NativeTxtCheck = true) →
  conf_sync_native (connected 873 s (apply_defaults (debug a) it)) = Some text →
  answer w idx RsnapshotSync = Exit rc out →
  let st' := (item_pass a w idx it st).2 in
  trace st' = (trace st ++ check_trace idx it ++ txt_trace idx it
                 ++ [(idx, RsnapshotSync)])%list
  ∧ conf_file st' = Some text
  ∧ errors st' = errors st + (if (rc =? 0)%Z then 0 else 1)
  ∧ passwd_file st' = None
  ∧ paths_processed st' = paths_processed st.
Proof.
  intros Hrot Hsel Hnumber Hcheck ((ty & Hty & Hssh & Hnat) & Hconnect & Hpw)
    Hok Htext Hsync.
  unfold item_pass. rewrite Hsel. rewrite item_body_sync by done.
  set (st1 := set_trace _ _).
  assert (cur st1 = apply_defaults (debug a) it) as Hcur1.
  { subst st1. by rewrite cur_set_trace, cur_set_cur. }
  assert (errors st1 = errors st
          ∧ paths_processed st1 = paths_processed st
          ∧ trace st1 = (trace st ++ check_trace idx it)%list)
    as (Herr1 & Hpaths1 & Htrace1) by (by subst st1).
  clearbody st1.
  destruct (txt_check_wanted_defaults (debug a) it) as (v & Hv & Hwanted).
  destruct (sync_native_goes_well w idx st1 s pw v text rc out)
    as (st' & -> & Htrace & Hconf & Herr & Hpw' & Hpaths); try done.
  - rewrite Hcur1. split_and!; [exists ty; split_and!; [|done..]|..];
      by rewrite default_kept by key_out.
  - by rewrite Hcur1.
  - rewrite Hwanted, Hcur1, default_kept by key_out. apply Hok.
  - by rewrite Hcur1.
  - cbn [caught snd]. unfold txt_trace.
    rewrite Htrace, Htrace1, <- app_assoc, Herr, Herr1, Hpaths, Hwanted.
    by split_and!.
Qed.

(** ** Sample runs of the further properties *)

Lemma defaults_frame_witness :
  let it : item := {[ "host" := VStr "db1"; "retain_daily" := VInt 0 ]} in
  apply_defaults true it !! "host" = Some (VStr "db1")
  ∧ apply_defaults true it !! "connect" = None
  ∧ apply_defaults true it !! "retain_daily" = apply_defaults false it !! "retain_daily".
Proof.
  intros it. destruct (defaults_frame it) as (Hkept & _ & Hdebug).
  split_and!.
  - rewrite Hkept by key_out. vm_compute. reflexivity.
  - rewrite Hkept by key_out. vm_compute. reflexivity.
  - apply Hdebug. key_out.
Defined.

Lemma lock_left_as_found_witness :
  lock_after (main args_sync world_db2
                (Some (config_of [item_ssh 1 "/backup/db1"])) LockFree) = LockFree
  ∧ lock_after (main args_sync world_db2
                  (Some (config_of [item_ssh 1 "/backup/db1"])) LockOther) = LockOther.
Proof.
  split.
  - destruct (lock_left_as_found args_sync world_db2
                (Some (config_of [item_ssh 1 "/backup/db1"])) LockFree) as [Hlock _].
    apply Hlock. intros H. discriminate H.
  - destruct (lock_left_as_found args_sync world_db2
                (Some (config_of [item_ssh 1 "/backup/db1"])) LockOther) as [Hlock _].
    apply Hlock. intros H. discriminate H.
Defined.

Lemma exit_0_commands_succeeded_witness :
  Forall (went_well world_db1)
    (trace (final (main args_sync world_db1
                     (Some (config_of [item_ssh 1 "/backup/db1"])) LockFree))).
Proof.
  apply (exit_0_commands_succeeded args_sync world_db1
           (Some (config_of [item_ssh 1 "/backup/db1"])) LockFree).
  vm_compute. reflexivity.
Defined.

Lemma sync_only_after_checks_witness :
  check_passes world_db1 0 (item_ssh 1 "/backup/db1") = true
  ∧ ssh_reachable world_db1 0 (item_ssh 1 "/backup/db1") = true
  ∧ hostname_matches world_db1 0 (item_ssh 1 "/backup/db1") = true.
Proof.
  destruct (sync_only_after_checks args_sync world_db1 0 (item_ssh 1 "/backup/db1")
              initial) as (_ & Hcheck & ty & Hty & Hgates).
  - unfold no_sync. apply (bool_decide_unpack _). vm_compute. exact I.
  - unfold no_sync. apply (bool_decide_unpack _). vm_compute. exact I.
  - vm_compute in Hty. injection Hty as <-.
    change (is_ssh_type (VStr "RSYNC_SSH")) with true in Hgates.
    destruct Hgates as (Hssh & Hname & _). by split_and!.
Defined.

Lemma unknown_type_one_error_witness :
  one_error_only 0 item_ftp initial (item_pass args_sync world_db1 0 item_ftp initial).2.
Proof.
  apply (unknown_type_one_error args_sync world_db1 0 item_ftp initial).
  - reflexivity.
  - vm_compute. reflexivity.
  - exists (VInt 1). vm_compute. reflexivity.
  - vm_compute. reflexivity.
  - intros ty Hty. vm_compute in Hty. injection Hty as <-. vm_compute.
    split; reflexivity.
Defined.

Lemma native_without_password_one_error_witness :
  one_error_only 0 item_native_open initial
    (item_pass args_sync world_db1 0 item_native_open initial).2.
Proof.
  apply (native_without_password_one_error args_sync world_db1 0 item_native_open
           initial (VStr "RSYNC_NATIVE")).
  - reflexivity.
  - vm_compute. reflexivity.
  - exists (VInt 7). vm_compute. reflexivity.
  - vm_compute. reflexivity.
  - vm_compute. reflexivity.
  - vm_compute. reflexivity.
  - vm_compute. reflexivity.
  - vm_compute. reflexivity.
Defined.

Lemma credentials_removed_at_end_witness :
  passwd_file (item_body args_sync world_db1 0 (set_cur item_native initial)).2 = None.
Proof.
  apply (credentials_removed_at_end args_sync world_db1 0 item_native initial
           (item_body args_sync world_db1 0 (set_cur item_native initial)).2
           (VStr "RSYNC_NATIVE")).
  - reflexivity.
  - vm_compute. reflexivity.
  - vm_compute. reflexivity.
  - vm_compute. reflexivity.
  - vm_compute. reflexivity.
Defined.

Lemma filter_fault_ends_run_witness :
  let items := [item_ssh 1 "/backup/a"; item_no_enabled; item_ssh 3 "/backup/b"] in
  trace (loop args_daily world_db1 0 items initial).2 = [(0, RsnapshotRotate)]
  ∧ exit_code (main args_daily world_db1 (Some (config_of items)) LockFree) = 1%Z.
Proof.
  intros items.
  destruct (filter_fault_ends_run args_daily world_db1 [item_ssh 1 "/backup/a"]
              [item_ssh 3 "/backup/b"] item_no_enabled) as [Hloop Hexit].
  - vm_compute. reflexivity.
  - repeat constructor. exists true. vm_compute. reflexivity.
  - split; [|apply Hexit].
    subst items. change ([item_ssh 1 "/backup/a"; item_no_enabled; item_ssh 3 "/backup/b"])
      with ([item_ssh 1 "/backup/a"] ++ item_no_enabled :: [item_ssh 3 "/backup/b"])%list.
    rewrite Hloop. vm_compute. reflexivity.
Defined.

(** ** Sample runs of the syncs that go well *)

Lemma ssh_sync_goes_well_witness :
  let st' := (item_pass args_sync world_db1 0 (item_ssh 1 "/backup/db1") initial).2 in
  trace st' = [(0, SshCheck); (0, HostnameQuery); (0, RsnapshotSync)]
  ∧ errors st' = 0
  ∧ is_Some (conf_file st').
Proof.
  intros st'. subst st'.
  destruct (ssh_sync_goes_well args_sync world_db1 0 (item_ssh 1 "/backup/db1") initial
              "10.0.0.1"
              (default ""
                 (rendered_ssh
                    (connected 22 "10.0.0.1"
                       (apply_defaults false (item_ssh 1 "/backup/db1")))))
              0%Z "")
    as (Htrace & Hconf & Herr & _).
  - reflexivity.
  - vm_compute. reflexivity.
  - exists (VInt 1). vm_compute. reflexivity.
  - vm_compute. reflexivity.
  - split_and!; [exists (VStr "RSYNC_SSH"); split_and!|..]; vm_compute; reflexivity.
  - vm_compute. reflexivity.
  - vm_compute. reflexivity.
  - vm_compute. reflexivity.
  - vm_compute. reflexivity.
  - rewrite Htrace, Hconf, Herr. split_and!; [vm_compute; reflexivity..|by eexists].
Defined.

Lemma native_sync_goes_well_witness :
  let st' := (item_pass args_sync world_db1 0 item_native initial).2 in
  trace st' = [(0, NativeTxtCheck); (0, RsnapshotSync)]
  ∧ errors st' = 0
  ∧ passwd_file st' = None.
Proof.
  intros st'. subst st'.
  destruct (native_sync_goes_well args_sync world_db1 0 item_native initial
              "10.0.0.7" "secret"
              (default ""
                 (conf_sync_native
                    (connected 873 "10.0.0.7" (apply_defaults false item_native))))
              0%Z "")
    as (Htrace & _ & Herr & Hpw & _).
  - reflexivity.
  - vm_compute. reflexivity.
  - exists (VInt 7). vm_compute. reflexivity.
  - vm_compute. reflexivity.
  - split_and!; [exists (VStr "RSYNC_NATIVE"); split_and!|..]; vm_compute; reflexivity.
  - intros _. split; [exists (VStr "/data")|]; vm_compute; reflexivity.
  - vm_compute. reflexivity.
  - vm_compute. reflexivity.
  - rewrite Htrace, Herr, Hpw. split_and!; [vm_compute; reflexivity..|done].
Defined.

(** * The generated configurations *)

(** ** Lines *)

Lemma str_app_assoc a b c : (a +:+ b) +:+ c = a +:+ (b +:+ c).
Proof.
  induction a as [|x a IH]; [done|].
  change (String x ((a +:+ b) +:+ c) = String x (a +:+ (b +:+ c))). by rewrite IH.
Qed.

Lemma split_cons c a s :
  Py.split c (String a s) =
  if Ascii.eqb a c then "" :: Py.split c s
  else match Py.split c s with
       | h :: t => String a h :: t
       | [] => [String a ""]
       end.
Proof. reflexivity. Qed.

Lemma split_nonempty c s : Py.split c s ≠ [].
Proof.
  destruct s as [|a s]; [done|]. rewrite split_cons.
  destruct (Ascii.eqb a c); [done|]. by destruct (Py.split c s).
Qed.

Lemma split_app c a b :
  Py.split c (a +:+ String c b) = (Py.split c a ++ Py.split c b)%list.
Proof.
  induction a as [|x a IH].
  - change ("" +:+ String c b) with (String c b).
    by rewrite split_cons, Ascii.eqb_refl.
  - change (String x a +:+ String c b) with (String x (a +:+ String c b)).
    rewrite !split_cons, IH. destruct (Ascii.eqb x c); [done|].
    pose proof (split_nonempty c a). by destruct (Py.split c a).
Qed.

Lemma lacks_cons c x s :
  lacks c (String x s) = negb (Ascii.eqb x c) && lacks c s.
Proof.
  unfold lacks. change (Py.has_char c (String x s))
    with (if Ascii.eqb x c then true else Py.has_char c s).
  by destruct (Ascii.eqb x c).
Qed.


Lemma split_lacks c s : lacks c s = true → Py.split c s = [s].
Proof.
  induction s as [|x s IH]; [done|]. rewrite lacks_cons.
  intros [Hx Hs]%andb_true_iff. apply negb_true_iff in Hx.
  by rewrite split_cons, Hx, IH.
Qed.


Lemma text_of_cons l ls : text_of (l :: ls) = l +:+ String (ascii_of_nat 10) (text_of ls).
Proof. reflexivity. Qed.



(** Lines that hold no line break are the lines of the text they make. *)
Lemma conf_lines_block (ls : list string) rest :
  Forall (λ l, lacks (ascii_of_nat 10) l = true) ls →
  conf_lines (text_of ls +:+ rest) = (ls ++ conf_lines rest)%list.
Proof.
  induction 1 as [|l ls Hl _ IH]; [done|].
  rewrite text_of_cons, str_app_assoc.
  change (String (ascii_of_nat 10) (text_of ls) +:+ rest)
    with (String (ascii_of_nat 10) (text_of ls +:+ rest)).
  unfold conf_lines in *. by rewrite split_app, IH, split_lacks.
Qed.


Lemma conf_lines_nl text :
  conf_lines (text +:+ NL) = (conf_lines text ++ [""])%list.
Proof. unfold conf_lines, NL. by rewrite split_app. Qed.

Lemma directives_block word (ls : list string) rest :
  Forall (λ l, lacks (ascii_of_nat 10) l = true) ls →
  directives word (text_of ls +:+ rest)
  = (List.filter (String.prefix word) ls ++ directives word rest)%list.
Proof. intros Hls. unfold directives. by rewrite conf_lines_block, List.filter_app. Qed.

(** ** One backup line *)



(** ** The retention lines of a template *)







(** ** The shape of the backup lines *)













(** ** The three configurations *)










(** ** Backup lines in the configuration *)



(** ** The configuration a pass leaves *)




Section ConfInv.

Variable w : world.
Variable idx : nat.
Variable it' : item.
Variable c0 : option string.








End ConfInv.


(** ** The file that is written *)








(** ** Retention lines of the file that is written *)


(** ** Sample configurations *)





